(** * Watershed on an anisotropic distance transform

    A shallow embedding of [ws_anisotropic_distance_transform.py]
    (constantinpape/watersheds) and the properties of its pipeline:
    distance field builder, seed extractor, height-map selector and the
    per-slice label stitcher.

    Conventions of the embedding.
    - A 3-d numpy array (axes z, y, x) is a list of z-slices, a slice a list
      of rows, a row a list of voxels.  The array handed to the entry point
      keeps its [shape] tuple next to a flat C-order buffer, as numpy does.
    - [float32] voxels are idealised as real numbers ([R]); no NaN, no
      rounding of the arithmetic.  Where the source compares a [float32]
      array with a Python float, numpy casts the scalar to [float32] first:
      that cast is the parameter [float32].
    - [uint32] labels are integers with the wrap-around modulo [2^32]
      written out.  Python integers ([offset], [max_z]) are unbounded [Z].
    - The numeric kernels of vigra and wsdt (distance transform, Gaussian
      smoothing, local maxima, connected components, seed grouping,
      watershed) are not part of this repository: the functions take them
      as parameters.
    - Python exceptions are the [Raise] outcomes of a small error monad. *)

From Stdlib Require Import ZArith Lia List Reals Lra.
From stdpp Require Import base list.

Local Open Scope Z_scope.

(** ** Outcomes *)

Inductive exn : Set :=
| AssertionError
| ZeroDivisionError
| IndexError.

Inductive result (A : Type) : Type :=
| Ok (a : A)
| Raise (e : exn).

Arguments Ok {A} a.
Arguments Raise {A} e.

#[global] Instance result_ret : MRet result := fun A a => Ok a.
#[global] Instance result_bind : MBind result := fun A B f m =>
  match m with
  | Ok a => f a
  | Raise e => Raise e
  end.

(** [assert c] *)
Definition assert (c : bool) : result unit :=
  if c then Ok tt else Raise AssertionError.

(** [for x in xs: st = body(st, x)], stopping at the first exception. *)
Fixpoint for_loop {S X : Type} (body : S -> X -> result S) (xs : list X) (st : S)
  : result S :=
  match xs with
  | [] => Ok st
  | x :: xs' => st' ← body st x; for_loop body xs' st'
  end.

(** ** Arrays *)

Abbreviation slice A := (list (list A)) (only parsing).
Abbreviation volume A := (list (list (list A))) (only parsing).

(** [a[z]] on the first axis; numpy raises [IndexError] out of range. *)
Definition getitem {A : Type} (a : list A) (z : nat) : result A :=
  match a !! z with
  | Some s => Ok s
  | None => Raise IndexError
  end.

(** Element-wise map over a 2-d slice and over a 3-d array. *)
Definition slice_map {A B : Type} (f : A -> B) (s : slice A) : slice B :=
  map (map f) s.
Definition volume_map {A B : Type} (f : A -> B) (v : volume A) : volume B :=
  map (slice_map f) v.

(** Voxel access by coordinates, [None] out of range. *)
Definition slice_get {A : Type} (s : slice A) (y x : nat) : option A :=
  match s !! y with
  | Some row => row !! x
  | None => None
  end.
Definition volume_get {A : Type} (v : volume A) (z y x : nat) : option A :=
  match v !! z with
  | Some s => slice_get s y x
  | None => None
  end.

(** The values stored in a slice, in C order. *)
Definition slice_values {A : Type} (s : slice A) : list A := concat s.

(** Element-wise binary operation on two arrays of one shape. *)
Definition volume_zip {A B C : Type} (f : A -> B -> C) (a : volume A) (b : volume B)
  : volume C :=
  zip_with (zip_with (zip_with f)) a b.

(** The array of the shape of [a] whose voxel at [(z, y, x)] is [k z y x].
    A kernel that maps an array to an array of the same shape is given by
    the value it produces at each coordinate. *)
Definition tabulate_like {A B : Type} (k : nat -> nat -> nat -> B) (a : volume A)
  : volume B :=
  imap (fun z s => imap (fun y row => imap (fun x _ => k z y x) row) s) a.

(** *** Boolean-mask indexing

    [a[mask]] is the 1-d array of the voxels of [a] where [mask] holds, in
    C order; [a[mask] = vals] stores the successive values of [vals] at
    those voxels.  Mask and array have one shape at every use in the source,
    and [vals] has as many values as the mask selects (numpy raises
    otherwise); a voxel for which [vals] has run out keeps its value here. *)

Section MaskLevel.
Context {M X V : Type}.
Variable sel : M -> X -> list V.
Variable asg : M -> X -> list V -> X * list V.

Definition select_level (ms : list M) (xs : list X) : list V :=
  concat (zip_with sel ms xs).

Fixpoint assign_level (ms : list M) (xs : list X) (vals : list V) : list X * list V :=
  match ms, xs with
  | m :: ms', x :: xs' =>
      let '(x', vals') := asg m x vals in
      let '(rest, vals'') := assign_level ms' xs' vals' in
      (x' :: rest, vals'')
  | _, _ => (xs, vals)
  end.
End MaskLevel.

Definition voxel_select {A : Type} (b : bool) (x : A) : list A :=
  if b then [x] else [].
Definition voxel_assign {A : Type} (b : bool) (x : A) (vals : list A) : A * list A :=
  if b then match vals with v :: vals' => (v, vals') | [] => (x, []) end
  else (x, vals).

Definition mask_select {A : Type} (mask : volume bool) (a : volume A) : list A :=
  select_level (select_level (select_level voxel_select)) mask a.
Definition mask_assign {A : Type} (mask : volume bool) (a : volume A) (vals : list A)
  : volume A :=
  fst (assign_level (assign_level (assign_level voxel_assign)) mask a vals).

(** What [a[mask] = f(b[mask])] leaves at one voxel. *)
Definition voxel_where {A : Type} (f : A -> A) (b : bool) (x y : A) : A :=
  if b then f y else x.

Fixpoint zip_with3 {A B C D : Type} (f : A -> B -> C -> D)
    (l1 : list A) (l2 : list B) (l3 : list C) : list D :=
  match l1, l2, l3 with
  | a :: l1', b :: l2', c :: l3' => f a b c :: zip_with3 f l1' l2' l3'
  | _, _, _ => []
  end.

(** Two arrays have the same extents along every axis. *)
Definition same_shape {A B : Type} (a : volume A) (b : volume B) : Prop :=
  Forall2 (Forall2 (Forall2 (fun _ _ => True))) a b.

(** *** The array passed to the entry point *)

Record ndarray (A : Type) : Type := mk_ndarray {
  shape : list nat;
  buffer : list A
}.
Arguments mk_ndarray {A} shape buffer.
Arguments shape {A} _.
Arguments buffer {A} _.

Definition ndim {A : Type} (a : ndarray A) : nat := length (shape a).

(** [k] consecutive chunks of [n] elements. *)
Fixpoint chunks {A : Type} (k n : nat) (l : list A) : list (list A) :=
  match k with
  | O => []
  | S k' => take n l :: chunks k' n (drop n l)
  end.

(** The C-order buffer of an array of shape [(s0, s1, s2)] seen along its
    axes. *)
Definition as_volume {A : Type} (s0 s1 s2 : nat) (buf : list A) : volume A :=
  map (chunks s1 s2) (chunks s0 (s1 * s2) buf).

(** ** [uint32] arithmetic

    numpy's in-place [a -= k] and [a += k] on a [uint32] array with a
    Python integer [k] store the result modulo [2^32]. *)

Definition uint32_mod : Z := 2 ^ 32.
Definition wrap32 (n : Z) : Z := n mod uint32_mod.
Definition isub32 (k l : Z) : Z := wrap32 (l - k).
Definition iadd32 (k l : Z) : Z := wrap32 (l + k).

(** ** The label stitcher

    Lines 112-120 of the source:
<<
    offset = 0
    for z in xrange(shape[0]):
        max_z = iterative_inplace_watershed(hmap[z], seeds[z], min_segment_size, None)
        seeds[z] -= 1
        seeds[z] += offset
        offset += max_z
    return seeds, offset
>>
    [seeds[z]] is a view: the watershed writes its labels into it, and the
    two arithmetic statements update the same storage. *)

Section Stitcher.
Context {px : Type}.
(** [iterative_inplace_watershed hmap_z seeds_z min_segment_size] gives the
    labels it leaves in [seeds_z] and the maximum label it returns. *)
Variable iterative_inplace_watershed : slice px -> slice Z -> Z -> slice Z * Z.

Definition stitch_body (hmap : volume px) (min_segment_size : Z)
    (st : volume Z * Z) (z : nat) : result (volume Z * Z) :=
  let '(seeds, offset) := st in
  hmap_z ← getitem hmap z;
  seeds_z ← getitem seeds z;
  let '(grown, max_z) := iterative_inplace_watershed hmap_z seeds_z min_segment_size in
  let seeds := <[z := grown]> seeds in
  let seeds := alter (slice_map (isub32 1)) z seeds in
  let seeds := alter (slice_map (iadd32 offset)) z seeds in
  Ok (seeds, offset + max_z).

Definition stitch (n : nat) (hmap : volume px) (seeds : volume Z)
    (min_segment_size : Z) : result (volume Z * Z) :=
  for_loop (stitch_body hmap min_segment_size) (seq 0 n) (seeds, 0).

(** What the watershed does on each slice of the untouched seed map. *)
Definition grow_all (hmap : volume px) (seeds : volume Z) (min_segment_size : Z)
  : list (slice Z * Z) :=
  zip_with (fun h s => iterative_inplace_watershed h s min_segment_size) hmap seeds.

(** The sum of the first [z] maximum labels: the running offset on entry
    to iteration [z]. *)
Definition offset_at (g : list (slice Z * Z)) (z : nat) : Z :=
  foldr Z.add 0 (map snd (take z g)).

(** The stitcher as a fold over the per-slice results: slice [z] is
    relabelled with the prefix sum of the earlier maximum labels. *)
Definition relabel (offset : Z) (grown : slice Z) : slice Z :=
  slice_map (fun l => iadd32 offset (isub32 1 l)) grown.

Definition stitched (g : list (slice Z * Z)) : volume Z :=
  imap (fun z r => relabel (offset_at g z) (fst r)) g.

End Stitcher.

(** ** Voxel values *)

Local Open Scope R_scope.

(** [1. / x] on Python floats. *)
Definition float_div (a b : R) : result R :=
  if Req_dec_T b 0 then Raise ZeroDivisionError else Ok (a / b).

(** The cast of a Python float (a double) to [float32], which numpy applies
    to the scalar operand of an operation with a [float32] array: the
    nearest [float32] value.  The embedding takes it as a parameter; nothing
    is assumed of it. *)
Class Float32Cast := float32 : R -> R.

(** [pmap >= threshold] at one voxel, as the [uint32] value numpy's [astype]
    gives it: the voxel is a [float32], and the comparison is made in
    [float32], against the cast threshold. *)
Definition threshold_mask {f32 : Float32Cast} (threshold p : R) : Z :=
  if Rge_dec p (float32 threshold) then 1%Z else 0%Z.

(** [astype(np.bool)] of a [uint32] *)
Definition nonzero (m : Z) : bool := negb (m =? 0)%Z.

(** [d > 0] *)
Definition positive (d : R) : bool := if Rlt_dec 0 d then true else false.

(** [d[d > 0] -= 1] at one voxel *)
Definition adjust (d : R) : R := if Rlt_dec 0 d then d - 1 else d.

(** The [sigma] argument of [vigra.filters.gaussianSmoothing]: one scale for
    all axes or one per axis. *)
Inductive sigma : Type :=
| SigmaScalar (s : R)
| SigmaPerAxis (sz sy sx : R).

(** ** The distance field builder ([signed_anisotropic_dt]) *)

Section Builder.
Context {f32 : Float32Cast}.
(** [distanceTransform array background pixel_pitch z y x]: voxel
    [(z, y, x)] of [vigra.filters.distanceTransform(array,
    background=..., pixel_pitch=...)], an array of the shape of [array]. *)
Variable distanceTransform :
  volume Z -> bool -> R * R * R -> nat -> nat -> nat -> R.

(** Lines 27-32 write the second transform into the storage of
    [binary_membranes], viewed as [float32]; the kernel reads its input
    before that storage is reused, so both transforms are those of the
    thresholded mask. *)
Definition signed_anisotropic_dt (pmap : volume R) (threshold anisotropy : R)
    (preserve_membrane_pmaps : bool) : volume R :=
  let binary_membranes := volume_map (threshold_mask threshold) pmap in
  let distance_to_membrane :=
    tabulate_like
      (distanceTransform binary_membranes true (anisotropy, 1, 1))
      binary_membranes in
  if preserve_membrane_pmaps then
    let membrane_mask := volume_map nonzero binary_membranes in
    mask_assign membrane_mask distance_to_membrane
      (map Ropp (mask_select membrane_mask pmap))
  else
    let distance_to_nonmembrane :=
      tabulate_like
        (distanceTransform binary_membranes false (anisotropy, 1, 1))
        binary_membranes in
    let is_positive := volume_map positive distance_to_nonmembrane in
    let distance_to_nonmembrane :=
      mask_assign is_positive distance_to_nonmembrane
        (map (fun d => d - 1) (mask_select is_positive distance_to_nonmembrane)) in
    volume_zip Rminus distance_to_membrane distance_to_nonmembrane.
End Builder.

(** ** The seed extractor ([anisotropic_seeds]) *)

Section Seeds.
(** The array type [localMaxima] returns: floats with NaN markers. *)
Context {marker : Type}.
(** [gaussianSmoothing array sigma z y x]: voxel [(z, y, x)] of the
    smoothed array. *)
Variable gaussianSmoothing : volume R -> sigma -> nat -> nat -> nat -> R.
(** [localMaxima(slice, allowPlateaus=True, allowAtBorder=True, marker=nan)] *)
Variable localMaxima : slice R -> slice marker.
Variable labelMultiArrayWithBackground : slice marker -> slice Z.
Variable group_seeds_by_distance : slice marker -> slice R -> slice Z.

Definition seeds_body (seed_map distance_to_membrane : volume R) (group_seeds : bool)
    (seeds : volume Z) (z : nat) : result (volume Z) :=
  seed_map_z ← getitem seed_map z;
  let seeds_z := localMaxima seed_map_z in
  seeds_z ← (if group_seeds then
               distance_z ← getitem distance_to_membrane z;
               Ok (group_seeds_by_distance seeds_z distance_z)
             else Ok (labelMultiArrayWithBackground seeds_z));
  Ok (<[z := seeds_z]> seeds).

Definition anisotropic_seeds (distance_to_membrane : volume R)
    (anisotropy sigma_seeds : R) (group_seeds : bool) : result (volume Z) :=
  let seeds := volume_map (fun _ => 0%Z) distance_to_membrane in
  inv ← float_div 1 anisotropy;
  let seed_map :=
    tabulate_like (gaussianSmoothing distance_to_membrane (SigmaPerAxis inv 1 1))
      distance_to_membrane in
  for_loop (seeds_body seed_map distance_to_membrane group_seeds)
    (seq 0 (length distance_to_membrane)) seeds.
End Seeds.

(** ** The entry point ([ws_anisotropic_distance_transform]) *)

Section Pipeline.
Context {f32 : Float32Cast} {marker : Type}.
Variable distanceTransform :
  volume Z -> bool -> R * R * R -> nat -> nat -> nat -> R.
Variable gaussianSmoothing : volume R -> sigma -> nat -> nat -> nat -> R.
Variable localMaxima : slice R -> slice marker.
Variable labelMultiArrayWithBackground : slice marker -> slice Z.
Variable group_seeds_by_distance : slice marker -> slice R -> slice Z.
Variable iterative_inplace_watershed : slice R -> slice Z -> Z -> slice Z * Z.

(** Lines 102-110: the surface the watershed grows on. *)
Definition height_map (pmap distance_to_membrane : volume R) (sigma_weights : R)
    (grow_on_pmap : bool) : result (volume R) :=
  let hmap :=
    if grow_on_pmap then pmap
    else volume_map (fun d => d * -1) distance_to_membrane in
  if Req_dec_T sigma_weights 0 then Ok hmap
  else
    s ← float_div 1 sigma_weights;
    Ok (tabulate_like (gaussianSmoothing hmap (SigmaScalar s)) hmap).

(** Lines 93-110 on their own: the extent of the z axis, the height map
    and the seed map that the stitching loop of lines 112-120 starts from. *)
Definition watershed_inputs (pmap : ndarray R)
    (threshold anisotropy sigma_seeds sigma_weights : R)
    (preserve_membrane_pmaps grow_on_pmap group_seeds : bool)
  : result (nat * volume R * volume Z) :=
  _ ← assert (bool_decide (ndim pmap = 3%nat));
  let shape := shape pmap in
  s0 ← getitem shape 0;
  s1 ← getitem shape 1;
  s2 ← getitem shape 2;
  _ ← assert (bool_decide (s0 < s1)%nat && bool_decide (s0 < s2)%nat);
  let pmap := as_volume s0 s1 s2 (buffer pmap) in
  let distance_to_membrane :=
    signed_anisotropic_dt distanceTransform pmap threshold anisotropy
      preserve_membrane_pmaps in
  seeds ← anisotropic_seeds gaussianSmoothing localMaxima
             labelMultiArrayWithBackground group_seeds_by_distance
             distance_to_membrane anisotropy sigma_seeds group_seeds;
  hmap ← height_map pmap distance_to_membrane sigma_weights grow_on_pmap;
  Ok (s0, hmap, seeds).

Definition ws_anisotropic_distance_transform (pmap : ndarray R)
    (threshold anisotropy sigma_seeds sigma_weights : R) (min_segment_size : Z)
    (preserve_membrane_pmaps grow_on_pmap group_seeds : bool)
  : result (volume Z * Z) :=
  _ ← assert (bool_decide (ndim pmap = 3%nat));
  let shape := shape pmap in
  s0 ← getitem shape 0;
  s1 ← getitem shape 1;
  s2 ← getitem shape 2;
  _ ← assert (bool_decide (s0 < s1)%nat && bool_decide (s0 < s2)%nat);
  let pmap := as_volume s0 s1 s2 (buffer pmap) in
  let distance_to_membrane :=
    signed_anisotropic_dt distanceTransform pmap threshold anisotropy
      preserve_membrane_pmaps in
  seeds ← anisotropic_seeds gaussianSmoothing localMaxima
             labelMultiArrayWithBackground group_seeds_by_distance
             distance_to_membrane anisotropy sigma_seeds group_seeds;
  hmap ← height_map pmap distance_to_membrane sigma_weights grow_on_pmap;
  stitch iterative_inplace_watershed s0 hmap seeds min_segment_size.
End Pipeline.

(** The shape invariant of the entry point: three axes, the first strictly
    the shortest. *)
Definition valid_shape {A : Type} (pmap : ndarray A) (s0 s1 s2 : nat) : Prop :=
  shape pmap = [s0; s1; s2] /\ (s0 < s1)%nat /\ (s0 < s2)%nat.

(** ** A reference distance transform *)

(** The voxels of an array with their coordinates, in C order. *)
Definition indexed {A : Type} (a : volume A) : list (nat * nat * nat * A) :=
  concat (imap (fun z s =>
    concat (imap (fun y row => imap (fun x v => (z, y, x, v)) row) s)) a).

(** The voxels distances are measured to: the non-zero ones when
    [background] is true, the zero ones otherwise. *)
Definition is_target (background : bool) (m : Z) : bool :=
  if background then nonzero m else negb (nonzero m).

(** Squared distance between two voxels under a per-axis pixel pitch. *)
Definition sq_dist (pitch : R * R * R) (p q : nat * nat * nat) : R :=
  let '(pz, py, px) := pitch in
  let '(z, y, x) := p in
  let '(z', y', x') := q in
  Rsqr (pz * (INR z - INR z')) + Rsqr (py * (INR y - INR y'))
  + Rsqr (px * (INR x - INR x')).

(** The squared distance given to a voxel when the array has no target
    voxel: the squared pitch-scaled extents, summed. *)
Definition sq_dist_max {A : Type} (pitch : R * R * R) (a : volume A) : R :=
  let '(pz, py, px) := pitch in
  let s0 := length a in
  let s1 := length (default [] (head a)) in
  let s2 := length (default [] (head (default [] (head a)))) in
  Rsqr (pz * INR s0) + Rsqr (py * INR s1) + Rsqr (px * INR s2).

(** Modelled from the spec: [vigra.filters.distanceTransform] is an external
    kernel; this is the AnisotropicDistanceTransform of the spec's section 6,
    the Euclidean distance from each voxel to the nearest voxel of the
    opposite class under the given per-axis pitch, zero on the target class
    itself, and saturating at the pitch-scaled diagonal of the array when
    there is no target voxel. *)
Definition euclidean_dt (a : volume Z) (background : bool) (pitch : R * R * R)
    (z y x : nat) : R :=
  sqrt (foldr Rmin (sq_dist_max pitch a)
          (map (fun qv => sq_dist pitch (z, y, x) (fst qv))
             (List.filter (fun qv => is_target background (snd qv)) (indexed a)))).

Local Open Scope Z_scope.

(** ** Well-formed watershed results *)

(** The watershed of a slice uses labels between 1 and the maximum it
    returns. *)
Definition labels_1_to_max (r : slice Z * Z) : Prop :=
  0 <= snd r /\ forall l, In l (slice_values (fst r)) -> 1 <= l <= snd r.

(** ** Example inputs and kernels *)

(** A two-slice run of the stitching loop: the watershed leaves the seeds as
    they are and reports two labels per slice. *)
Definition keep_seeds (h : slice unit) (s : slice Z) (m : Z) : slice Z * Z := (s, 2).
Definition two_slices : volume unit := [[[tt; tt]]; [[tt; tt]]].
Definition two_seeds : volume Z := [[[1; 2]]; [[0; 1]]].

(** Kernels for running the entry point: a constant distance transform, a
    smoothing that returns its input, local maxima that mark every voxel, and
    labelings that put every voxel in segment 1. *)
Definition unit_distance (a : volume Z) (background : bool) (pitch : R * R * R)
    (z y x : nat) : R := 1%R.
Definition no_smoothing (a : volume R) (s : sigma) (z y x : nat) : R :=
  default 0%R (volume_get a z y x).
Definition all_maxima (s : slice R) : slice R := s.
Definition one_component (s : slice R) : slice Z := slice_map (fun _ => 1) s.
Definition one_group (s : slice R) (d : slice R) : slice Z := slice_map (fun _ => 1) s.

(** The cast on [float32] values, which it leaves as they are: the
    thresholds of the examples, 1/2 and 0, are [float32] values. *)
Definition float32_values : Float32Cast := fun x => x.

(** The entry point with these kernels and a given watershed. *)
Definition run_with (ws : slice R -> slice Z -> Z -> slice Z * Z) :=
  ws_anisotropic_distance_transform (f32 := float32_values) unit_distance
    no_smoothing all_maxima one_component one_group ws.
Definition inputs_of :=
  watershed_inputs (f32 := float32_values) unit_distance no_smoothing all_maxima
    one_component one_group.

(** A probability map of shape (2, 3, 3): slice 0 is membrane, slice 1 is
    not. *)
Definition membrane_over_tissue : ndarray R :=
  mk_ndarray [2; 3; 3]%nat
    [1; 1; 1; 1; 1; 1; 1; 1; 1;
     0; 0; 0; 0; 0; 0; 0; 0; 0]%R.

(** The same map along its axes. *)
Definition membrane_volume : volume R :=
  [ [[1; 1; 1]; [1; 1; 1]; [1; 1; 1]];
    [[0; 0; 0]; [0; 0; 0]; [0; 0; 0]] ]%R.

(** A watershed that splits every 3 x 3 slice into two segments. *)
Definition two_segments (h : slice R) (s : slice Z) (m : Z) : slice Z * Z :=
  ([[1; 1; 2]; [1; 2; 2]; [1; 2; 2]], 2).

(** A slice of 65536 x 65536 voxels in which every label from 1 to
    [2^32 - 1] occurs: voxel [(y, x)] has label [65536 * y + x], and the
    first voxel shares label 1 with its neighbour. *)
Definition every_label : slice Z :=
  map (fun y => map (fun x => Z.max 1 (65536 * y + x)) (seqZ 0 65536)) (seqZ 0 65536).
Definition all_segments (h : slice R) (s : slice Z) (m : Z) : slice Z * Z :=
  (every_label, 4294967295).

Definition side : nat := Z.to_nat 65536.
Definition large_volume : ndarray R :=
  mk_ndarray [2%nat; side; side] (replicate (2 * side * side) 0%R).

(** One slice whose first column is membrane. *)
Definition membrane_edge : volume R :=
  [ [[1; 0; 0]; [1; 0; 0]; [1; 0; 0]] ]%R.

(** An array of shape (0, 1, 1): no slice at all. *)
Definition no_slices : ndarray R := mk_ndarray [0; 1; 1]%nat [].

(** A watershed that finds two segments in every slice of two voxels. *)
Definition two_labels (h : slice unit) (s : slice Z) (m : Z) : slice Z * Z :=
  ([[1; 2]], 2).

Local Open Scope Z_scope.

Lemma for_loop_app {S X} (body : S -> X -> result S) xs ys st :
  for_loop body (xs ++ ys) st = st' ← for_loop body xs st; for_loop body ys st'.
Proof.
  revert st. induction xs as [|x xs IH]; intros st; simpl; [done|].
  destruct (body st x) as [st'|e]; simpl; [apply IH|done].
Qed.

Section StitchLoop.
Context {px : Type}.
Variable ws : slice px -> slice Z -> Z -> slice Z * Z.

Lemma offset_at_S g z r :
  g !! z = Some r -> offset_at g (S z) = offset_at g z + snd r.
Proof.
  intros H. unfold offset_at.
  rewrite (take_S_r _ _ _ H), map_app, foldr_app. simpl.
  generalize (map snd (take z g)). intros l. induction l; simpl; lia.
Qed.

Lemma stitched_length g : length (stitched g) = length g.
Proof. unfold stitched. apply length_imap. Qed.

Lemma stitch_unfold n hmap seeds mss :
  (n <= length hmap)%nat -> (n <= length seeds)%nat ->
  stitch ws n hmap seeds mss =
    Ok (take n (stitched (grow_all ws hmap seeds mss)) ++ drop n seeds,
        offset_at (grow_all ws hmap seeds mss) n).
Proof.
  induction n as [|n IH]; intros Hh Hs.
  - reflexivity.
  - unfold stitch in *. rewrite seq_S, for_loop_app, IH by lia. simpl.
    destruct (lookup_lt_is_Some_2 hmap n) as [h Hhz]; [lia|].
    destruct (lookup_lt_is_Some_2 seeds n) as [s Hsz]; [lia|].
    set (g := grow_all ws hmap seeds mss).
    assert (Hg : g !! n = Some (ws h s mss)).
    { unfold g, grow_all. rewrite lookup_zip_with, Hhz, Hsz. done. }
    assert (Hlen : length (take n (stitched g)) = n).
    { rewrite length_take, stitched_length. apply lookup_lt_Some in Hg. lia. }
    unfold getitem. rewrite Hhz. simpl.
    rewrite lookup_app_r by lia. rewrite Hlen, Nat.sub_diag, lookup_drop, Nat.add_0_r, Hsz.
    simpl. destruct (ws h s mss) as [grown max_z] eqn:Hws.
    simpl. f_equal. f_equal.
    + rewrite (drop_S _ _ _ Hsz).
      rewrite insert_app_r_alt, !alter_app_r_alt by lia.
      rewrite Hlen, Nat.sub_diag. simpl.
      assert (Hst : stitched g !! n = Some (relabel (offset_at g n) grown)).
      { unfold stitched. rewrite list_lookup_imap, Hg. done. }
      rewrite (take_S_r _ _ _ Hst), <- app_assoc. simpl.
      f_equal. f_equal. unfold relabel, slice_map.
      rewrite map_map. apply map_ext. intros row. rewrite map_map. done.
    + rewrite (offset_at_S _ _ _ Hg). done.
Qed.
End StitchLoop.

Lemma lookup_zip_with3 {A B C D} (f : A -> B -> C -> D) l1 l2 l3 i a b c :
  l1 !! i = Some a -> l2 !! i = Some b -> l3 !! i = Some c ->
  zip_with3 f l1 l2 l3 !! i = Some (f a b c).
Proof.
  revert l2 l3 i. induction l1 as [|a' l1 IH]; intros [|b' l2] [|c' l3] [|i]; simpl; try done.
  - congruence.
  - apply IH.
Qed.

Section MaskLevelSpec.
Context {M X V : Type}.
Variable f : V -> V.
Variable sel : M -> X -> list V.
Variable asg : M -> X -> list V -> X * list V.
Variable wh : M -> X -> X -> X.
Variable ok : M -> X -> Prop.
Hypothesis asg_spec : forall m x y vals,
  ok m x -> ok m y -> asg m x (map f (sel m y) ++ vals) = (wh m x y, vals).

Lemma assign_level_spec ms xs ys vals :
  Forall2 ok ms xs -> Forall2 ok ms ys ->
  assign_level asg ms xs (map f (select_level sel ms ys) ++ vals)
  = (zip_with3 wh ms xs ys, vals).
Proof.
  intros Hx. revert ys vals. induction Hx as [|m x ms xs Hmx Hx IH]; intros ys vals Hy.
  - inversion Hy; subst. reflexivity.
  - inversion Hy as [|? y ? ys' Hmy Hy']; subst. unfold select_level in *. simpl.
    rewrite map_app, <- app_assoc, asg_spec by assumption.
    rewrite IH by assumption. reflexivity.
Qed.
End MaskLevelSpec.

Lemma voxel_assign_spec {A} (f : A -> A) b (x y : A) vals :
  voxel_assign b x (map f (voxel_select b y) ++ vals) = (voxel_where f b x y, vals).
Proof. destruct b; reflexivity. Qed.

Lemma mask_assign_spec {A} (f : A -> A) (mask : volume bool) (a b : volume A) :
  same_shape mask a -> same_shape mask b ->
  mask_assign mask a (map f (mask_select mask b))
  = zip_with3 (zip_with3 (zip_with3 (voxel_where f))) mask a b.
Proof.
  intros Ha Hb. unfold mask_assign, mask_select.
  rewrite <- (app_nil_r (map f _)).
  erewrite (assign_level_spec f) ; [reflexivity| |exact Ha|exact Hb].
  intros m x y vals Hx Hy.
  apply (assign_level_spec f _ _ _ (Forall2 (fun _ _ => True))); [|exact Hx|exact Hy].
  clear. intros m x y vals Hx Hy.
  apply (assign_level_spec f _ _ _ (fun _ _ => True)); [|exact Hx|exact Hy].
  intros. apply voxel_assign_spec.
Qed.

Local Open Scope R_scope.

Lemma indexed_spec {A} (a : volume A) z y x v :
  In (z, y, x, v) (indexed a) <-> volume_get a z y x = Some v.
Proof.
  unfold indexed, volume_get, slice_get. rewrite in_concat. split.
  - intros (l & Hl & Hin).
    apply list_elem_of_In, elem_of_lookup_imap in Hl as (z' & s & -> & Hs).
    apply in_concat in Hin as (l & Hl & Hin).
    apply list_elem_of_In, elem_of_lookup_imap in Hl as (y' & row & -> & Hrow).
    apply list_elem_of_In, elem_of_lookup_imap in Hin as (x' & v' & Heq & Hv).
    inversion Heq; subst. rewrite Hs, Hrow. exact Hv.
  - destruct (a !! z) as [s|] eqn:Hs; [|done].
    destruct (s !! y) as [row|] eqn:Hrow; [|done]. intros Hv.
    eexists. split.
    + apply list_elem_of_In. apply (elem_of_lookup_imap_2 _ _ _ _ Hs).
    + apply in_concat. eexists. split.
      * apply list_elem_of_In. apply (elem_of_lookup_imap_2 _ _ _ _ Hrow).
      * apply list_elem_of_In. apply (elem_of_lookup_imap_2 (fun x v => (z, y, x, v)) _ _ _ Hv).
Qed.

Lemma foldr_Rmin_le_init d l : foldr Rmin d l <= d.
Proof.
  induction l as [|c l IH]; simpl; [lra|].
  eapply Rle_trans; [apply Rmin_r|exact IH].
Qed.

Lemma foldr_Rmin_le_elem d l c : In c l -> foldr Rmin d l <= c.
Proof.
  induction l as [|c' l IH]; simpl; [tauto|]. intros [->|Hin].
  - apply Rmin_l.
  - eapply Rle_trans; [apply Rmin_r|auto].
Qed.

Lemma foldr_Rmin_ge b d l :
  b <= d -> (forall c, In c l -> b <= c) -> b <= foldr Rmin d l.
Proof.
  intros Hd. induction l as [|c l IH]; simpl; intros Hl; [exact Hd|].
  apply Rmin_glb; auto.
Qed.

Lemma sq_dist_nonneg pitch p q : 0 <= sq_dist pitch p q.
Proof.
  destruct pitch as [[pz py] px], p as [[z y] x], q as [[z' y'] x']. simpl.
  pose proof (Rle_0_sqr (pz * (INR z - INR z'))).
  pose proof (Rle_0_sqr (py * (INR y - INR y'))).
  pose proof (Rle_0_sqr (px * (INR x - INR x'))). lra.
Qed.

Lemma sq_dist_refl pitch p : sq_dist pitch p p = 0.
Proof.
  destruct pitch as [[pz py] px], p as [[z y] x]. simpl.
  unfold Rsqr. ring.
Qed.

Lemma sq_dist_max_nonneg {A} pitch (a : volume A) : 0 <= sq_dist_max pitch a.
Proof.
  destruct pitch as [[pz py] px]. unfold sq_dist_max.
  cbv zeta.
  match goal with |- 0 <= Rsqr ?a + Rsqr ?b + Rsqr ?c =>
    pose proof (Rle_0_sqr a); pose proof (Rle_0_sqr b); pose proof (Rle_0_sqr c) end.
  lra.
Qed.

(** |INR a - INR b| >= 1 for distinct naturals, squared. *)
Lemma sqr_INR_diff (c : R) (a b : nat) : a <> b -> Rsqr c <= Rsqr (c * (INR a - INR b)).
Proof.
  intros Hne. rewrite Rsqr_mult.
  assert (H1 : 1 <= Rsqr (INR a - INR b)).
  { destruct (Nat.lt_total a b) as [Hlt|[Heq|Hgt]]; [|done|].
    - apply lt_INR in Hlt as Hlt'. assert (INR a + 1 <= INR b).
      { rewrite <- S_INR. apply le_INR. lia. }
      unfold Rsqr. nra.
    - assert (INR b + 1 <= INR a).
      { rewrite <- S_INR. apply le_INR. lia. }
      unfold Rsqr. nra. }
  pose proof (Rle_0_sqr c). nra.
Qed.

Lemma sq_dist_distinct pz p q :
  p <> q -> Rmin (Rsqr pz) 1 <= sq_dist (pz, 1, 1) p q.
Proof.
  destruct p as [[z y] x], q as [[z' y'] x']. intros Hne. simpl.
  pose proof (Rle_0_sqr (pz * (INR z - INR z'))).
  pose proof (Rle_0_sqr (1 * (INR y - INR y'))).
  pose proof (Rle_0_sqr (1 * (INR x - INR x'))).
  pose proof (Rmin_l (Rsqr pz) 1). pose proof (Rmin_r (Rsqr pz) 1).
  assert (Hs1 : Rsqr 1 = 1) by (unfold Rsqr; ring).
  destruct (decide (z = z')) as [->|Hz].
  - destruct (decide (y = y')) as [->|Hy].
    + assert (Hx : x <> x') by congruence.
      pose proof (sqr_INR_diff 1 _ _ Hx). lra.
    + pose proof (sqr_INR_diff 1 _ _ Hy). lra.
  - pose proof (sqr_INR_diff pz _ _ Hz). lra.
Qed.

Lemma sq_dist_max_lower {A} pz (a : volume A) z s :
  a !! z = Some s -> Rsqr pz <= sq_dist_max (pz, 1, 1) a.
Proof.
  intros Hs. unfold sq_dist_max. cbv zeta.
  match goal with |- _ <= Rsqr ?a + Rsqr ?b + Rsqr ?c =>
    pose proof (Rle_0_sqr b); pose proof (Rle_0_sqr c) end.
  apply lookup_lt_Some in Hs.
  assert (1 <= INR (length a)) by (apply (le_INR 1); lia).
  rewrite Rsqr_mult. pose proof (Rle_0_sqr pz).
  assert (1 <= Rsqr (INR (length a))) by (unfold Rsqr; nra).
  nra.
Qed.

Lemma euclidean_dt_target a background pitch z y x m :
  volume_get a z y x = Some m -> is_target background m = true ->
  euclidean_dt a background pitch z y x = 0.
Proof.
  intros Hget Ht. unfold euclidean_dt.
  match goal with |- sqrt ?e = 0 => assert (He : e = 0) end.
  { apply Rle_antisym.
    - rewrite <- (sq_dist_refl pitch (z, y, x)).
      apply foldr_Rmin_le_elem. apply in_map_iff. exists (z, y, x, m). split; [done|].
      apply filter_In. split; [by apply indexed_spec|done].
    - apply foldr_Rmin_ge; [apply sq_dist_max_nonneg|].
      intros c (qv & <- & _)%in_map_iff. apply sq_dist_nonneg. }
  rewrite He. apply sqrt_0.
Qed.

Lemma euclidean_dt_sq_lower a background pz z y x m :
  volume_get a z y x = Some m -> is_target background m = false ->
  Rmin (Rsqr pz) 1 <=
    foldr Rmin (sq_dist_max (pz, 1, 1) a)
      (map (fun qv => sq_dist (pz, 1, 1) (z, y, x) (fst qv))
         (List.filter (fun qv => is_target background (snd qv)) (indexed a))).
Proof.
  intros Hget Ht. apply foldr_Rmin_ge.
  - eapply Rle_trans; [apply Rmin_l|].
    unfold volume_get in Hget. destruct (a !! z) as [s|] eqn:Hs; [|done].
    by eapply sq_dist_max_lower.
  - intros c ([[[z' y'] x'] m'] & <- & [Hin Ht']%filter_In)%in_map_iff.
    cbn [fst snd] in *.
    apply sq_dist_distinct. intros Heq. inversion Heq; subst.
    apply indexed_spec in Hin. congruence.
Qed.

Lemma euclidean_dt_positive a background pz z y x m :
  volume_get a z y x = Some m -> is_target background m = false ->
  pz <> 0 -> 0 < euclidean_dt a background (pz, 1, 1) z y x.
Proof.
  intros Hget Ht Hpz. unfold euclidean_dt. apply sqrt_lt_R0.
  eapply Rlt_le_trans; [|by eapply euclidean_dt_sq_lower].
  apply Rmin_glb_lt; [|lra]. by apply Rlt_0_sqr.
Qed.

Lemma euclidean_dt_ge_1 a background pz z y x m :
  volume_get a z y x = Some m -> is_target background m = false ->
  1 <= pz -> 1 <= euclidean_dt a background (pz, 1, 1) z y x.
Proof.
  intros Hget Ht Hpz. unfold euclidean_dt. rewrite <- sqrt_1 at 1.
  apply sqrt_le_1_alt.
  eapply Rle_trans; [|by eapply euclidean_dt_sq_lower].
  apply Rmin_glb; [|lra]. unfold Rsqr. nra.
Qed.

Lemma euclidean_dt_le a background pitch z y x z' y' x' m :
  volume_get a z' y' x' = Some m -> is_target background m = true ->
  euclidean_dt a background pitch z y x <= sqrt (sq_dist pitch (z, y, x) (z', y', x')).
Proof.
  intros Hget Ht. unfold euclidean_dt. apply sqrt_le_1_alt.
  apply foldr_Rmin_le_elem. apply in_map_iff. exists (z', y', x', m). split; [done|].
  apply filter_In. split; [by apply indexed_spec|done].
Qed.

Lemma volume_get_map {A B} (f : A -> B) (a : volume A) z y x :
  volume_get (volume_map f a) z y x = f <$> volume_get a z y x.
Proof.
  unfold volume_get, slice_get, volume_map, slice_map.
  change (map (map (map f)) a) with (fmap (fmap (fmap f)) a).
  rewrite list_lookup_fmap. destruct (a !! z) as [s|]; [|done]. simpl.
  rewrite list_lookup_fmap. destruct (s !! y) as [row|]; [|done]. simpl.
  apply list_lookup_fmap.
Qed.

Lemma volume_get_tabulate {A B} (k : nat -> nat -> nat -> B) (a : volume A) z y x :
  volume_get (tabulate_like k a) z y x = (fun _ => k z y x) <$> volume_get a z y x.
Proof.
  unfold volume_get, slice_get, tabulate_like.
  rewrite list_lookup_imap. destruct (a !! z) as [s|]; [|done]. simpl.
  rewrite list_lookup_imap. destruct (s !! y) as [row|]; [|done]. simpl.
  apply list_lookup_imap.
Qed.

Lemma volume_get_zip {A B C} (f : A -> B -> C) a b z y x u v :
  volume_get a z y x = Some u -> volume_get b z y x = Some v ->
  volume_get (volume_zip f a b) z y x = Some (f u v).
Proof.
  unfold volume_get, slice_get, volume_zip. intros Ha Hb.
  rewrite lookup_zip_with.
  destruct (a !! z) as [sa|]; [|done]. destruct (b !! z) as [sb|]; [|done]. simpl.
  rewrite lookup_zip_with.
  destruct (sa !! y) as [ra|]; [|done]. destruct (sb !! y) as [rb|]; [|done]. simpl.
  rewrite lookup_zip_with, Ha, Hb. done.
Qed.

Lemma volume_get_zip_with3 {A B C D} (f : A -> B -> C -> D) a b c z y x u v w :
  volume_get a z y x = Some u -> volume_get b z y x = Some v ->
  volume_get c z y x = Some w ->
  volume_get (zip_with3 (zip_with3 (zip_with3 f)) a b c) z y x = Some (f u v w).
Proof.
  unfold volume_get, slice_get. intros Ha Hb Hc.
  destruct (a !! z) as [sa|] eqn:Hsa; [|done].
  destruct (b !! z) as [sb|] eqn:Hsb; [|done].
  destruct (c !! z) as [sc|] eqn:Hsc; [|done].
  rewrite (lookup_zip_with3 _ _ _ _ _ _ _ _ Hsa Hsb Hsc).
  destruct (sa !! y) as [ra|] eqn:Hra; [|done].
  destruct (sb !! y) as [rb|] eqn:Hrb; [|done].
  destruct (sc !! y) as [rc|] eqn:Hrc; [|done].
  rewrite (lookup_zip_with3 _ _ _ _ _ _ _ _ Hra Hrb Hrc).
  by apply lookup_zip_with3.
Qed.

Lemma same_shape_refl {A} (a : volume A) : same_shape a a.
Proof.
  unfold same_shape. apply Forall2_same_length_lookup. split; [done|].
  intros z s s' Hs Hs'. rewrite Hs in Hs'. inversion Hs'; subst.
  apply Forall2_same_length_lookup. split; [done|].
  intros y r r' Hr Hr'. rewrite Hr in Hr'. inversion Hr'; subst.
  apply Forall2_true; done.
Qed.

Lemma same_shape_map_l {A B C} (f : A -> B) (a : volume A) (b : volume C) :
  same_shape a b -> same_shape (volume_map f a) b.
Proof.
  unfold same_shape, volume_map, slice_map. intros H.
  change (map (map (map f)) a) with (fmap (fmap (fmap f)) a).
  apply Forall2_fmap_l. eapply Forall2_impl; [exact H|]. intros s s' Hs. simpl.
  apply Forall2_fmap_l. eapply Forall2_impl; [exact Hs|]. intros r r' Hr. simpl.
  apply Forall2_fmap_l. eapply Forall2_impl; [exact Hr|]. done.
Qed.

Lemma same_shape_sym {A B} (a : volume A) (b : volume B) :
  same_shape a b -> same_shape b a.
Proof.
  unfold same_shape. intros H. apply Forall2_flip.
  eapply Forall2_impl; [exact H|]. intros s s' Hs. apply Forall2_flip.
  eapply Forall2_impl; [exact Hs|]. intros r r' Hr. apply Forall2_flip.
  eapply Forall2_impl; [exact Hr|]. done.
Qed.

Lemma same_shape_map_r {A B C} (f : B -> C) (a : volume A) (b : volume B) :
  same_shape a b -> same_shape a (volume_map f b).
Proof. intros H. apply same_shape_sym, same_shape_map_l, same_shape_sym, H. Qed.

Lemma same_shape_tabulate_l {A B C} (k : nat -> nat -> nat -> B) (a : volume A) (b : volume C) :
  same_shape a b -> same_shape (tabulate_like k a) b.
Proof.
  unfold same_shape, tabulate_like. intros H.
  apply Forall2_same_length_lookup. split.
  { rewrite length_imap. by eapply Forall2_length. }
  intros z s s' Hs Hs'. apply list_lookup_imap_Some in Hs as (s0 & Hs0 & ->).
  pose proof (Forall2_lookup_lr _ _ _ _ _ _ H Hs0 Hs') as H1.
  apply Forall2_same_length_lookup. split.
  { rewrite length_imap. by eapply Forall2_length. }
  intros y r r' Hr Hr'. apply list_lookup_imap_Some in Hr as (r0 & Hr0 & ->).
  pose proof (Forall2_lookup_lr _ _ _ _ _ _ H1 Hr0 Hr') as H2.
  apply Forall2_true; [done|]. rewrite length_imap. by eapply Forall2_length.
Qed.

Lemma same_shape_tabulate_r {A B C} (k : nat -> nat -> nat -> C) (a : volume A) (b : volume B) :
  same_shape a b -> same_shape a (tabulate_like k b).
Proof. intros H. apply same_shape_sym, same_shape_tabulate_l, same_shape_sym, H. Qed.

Section BuilderVoxels.
Context {f32 : Float32Cast}.
Variable dt : volume Z -> bool -> R * R * R -> nat -> nat -> nat -> R.

Lemma signed_dt_preserve pmap thr a z y x p :
  volume_get pmap z y x = Some p ->
  volume_get (signed_anisotropic_dt dt pmap thr a true) z y x =
    Some (if Rge_dec p (float32 thr) then - p
          else dt (volume_map (threshold_mask thr) pmap) true (a, 1, 1) z y x).
Proof.
  intros Hp. unfold signed_anisotropic_dt.
  rewrite mask_assign_spec.
  2:{ apply same_shape_map_l, same_shape_tabulate_r, same_shape_refl. }
  2:{ apply same_shape_map_l, same_shape_map_l, same_shape_refl. }
  erewrite volume_get_zip_with3; [| | |exact Hp].
  2:{ rewrite !volume_get_map, Hp. reflexivity. }
  2:{ rewrite volume_get_tabulate, volume_get_map, Hp. reflexivity. }
  f_equal. unfold voxel_where, nonzero, threshold_mask.
  destruct (Rge_dec p (float32 thr)); reflexivity.
Qed.

Lemma signed_dt_combine pmap thr a z y x p :
  volume_get pmap z y x = Some p ->
  volume_get (signed_anisotropic_dt dt pmap thr a false) z y x =
    Some (dt (volume_map (threshold_mask thr) pmap) true (a, 1, 1) z y x
          - adjust (dt (volume_map (threshold_mask thr) pmap) false (a, 1, 1) z y x)).
Proof.
  intros Hp. unfold signed_anisotropic_dt.
  rewrite mask_assign_spec.
  2:{ apply same_shape_map_l, same_shape_refl. }
  2:{ apply same_shape_map_l, same_shape_refl. }
  erewrite volume_get_zip.
  2:{ rewrite volume_get_tabulate, volume_get_map, Hp. reflexivity. }
  2:{ erewrite volume_get_zip_with3.
      - reflexivity.
      - rewrite volume_get_map, volume_get_tabulate, volume_get_map, Hp. reflexivity.
      - rewrite volume_get_tabulate, volume_get_map, Hp. reflexivity.
      - rewrite volume_get_tabulate, volume_get_map, Hp. reflexivity. }
  f_equal. unfold voxel_where, positive, adjust.
  destruct (Rlt_dec 0 _); reflexivity.
Qed.
End BuilderVoxels.

Local Open Scope Z_scope.

Lemma length_chunks {A} k n (l : list A) : length (chunks k n l) = k.
Proof. revert l. induction k as [|k IH]; intros l; simpl; [done|]. by rewrite IH. Qed.

Lemma length_as_volume {A} s0 s1 s2 (buf : list A) : length (as_volume s0 s1 s2 buf) = s0.
Proof. unfold as_volume. by rewrite length_map, length_chunks. Qed.

Lemma length_zip_with3 {A B C D} (f : A -> B -> C -> D) l1 l2 l3 :
  length l1 = length l2 -> length l1 = length l3 ->
  length (zip_with3 f l1 l2 l3) = length l1.
Proof.
  revert l2 l3. induction l1 as [|a l1 IH]; intros [|b l2] [|c l3]; simpl; try done.
  intros H2 H3. f_equal. apply IH; lia.
Qed.

Lemma length_tabulate_like {A B} (k : nat -> nat -> nat -> B) (a : volume A) :
  length (tabulate_like k a) = length a.
Proof. unfold tabulate_like. apply length_imap. Qed.

Lemma length_volume_map {A B} (f : A -> B) (a : volume A) :
  length (volume_map f a) = length a.
Proof. unfold volume_map. apply length_map. Qed.

Lemma length_signed_anisotropic_dt {f32 : Float32Cast} dt pmap thr a preserve :
  length (signed_anisotropic_dt dt pmap thr a preserve) = length pmap.
Proof.
  unfold signed_anisotropic_dt. destruct preserve.
  - rewrite mask_assign_spec.
    2:{ apply same_shape_map_l, same_shape_tabulate_r, same_shape_refl. }
    2:{ apply same_shape_map_l, same_shape_map_l, same_shape_refl. }
    rewrite length_zip_with3; rewrite ?length_volume_map, ?length_tabulate_like, ?length_volume_map; done.
  - rewrite mask_assign_spec.
    2:{ apply same_shape_map_l, same_shape_refl. }
    2:{ apply same_shape_map_l, same_shape_refl. }
    unfold volume_zip. rewrite length_zip_with.
    rewrite length_zip_with3; rewrite ?length_volume_map, ?length_tabulate_like, ?length_volume_map; try done.
    lia.
Qed.

Section PipelineRuns.
Context {f32 : Float32Cast} {marker : Type}.
Variable dt : volume Z -> bool -> R * R * R -> nat -> nat -> nat -> R.
Variable gs : volume R -> sigma -> nat -> nat -> nat -> R.
Variable lm : slice R -> slice marker.
Variable lab : slice marker -> slice Z.
Variable grp : slice marker -> slice R -> slice Z.
Variable ws : slice R -> slice Z -> Z -> slice Z * Z.

Lemma seeds_body_ok seed_map dtm group seeds i :
  (i < length seed_map)%nat -> (i < length dtm)%nat ->
  exists s, seeds_body lm lab grp seed_map dtm group seeds i = Ok (<[i:=s]> seeds).
Proof.
  intros Hi1 Hi2. unfold seeds_body, getitem.
  destruct (lookup_lt_is_Some_2 seed_map i Hi1) as [sm ->].
  destruct (lookup_lt_is_Some_2 dtm i Hi2) as [d ->].
  destruct group; simpl; eauto.
Qed.

Lemma seeds_loop_ok seed_map dtm group idxs seeds :
  Forall (fun i => (i < length seed_map)%nat /\ (i < length dtm)%nat) idxs ->
  exists seeds', for_loop (seeds_body lm lab grp seed_map dtm group) idxs seeds = Ok seeds'
                 /\ length seeds' = length seeds.
Proof.
  intros H. revert seeds. induction H as [|i idxs [Hi1 Hi2] _ IH]; intros seeds.
  - by exists seeds.
  - cbn [for_loop].
    destruct (seeds_body_ok seed_map dtm group seeds i Hi1 Hi2) as [s ->].
    destruct (IH (<[i:=s]> seeds)) as (seeds' & Hloop & Hlen).
    exists seeds'. split; [exact Hloop|]. by rewrite Hlen, length_insert.
Qed.

Lemma anisotropic_seeds_ok dtm a sigma_seeds group :
  a <> 0%R ->
  exists seeds, anisotropic_seeds gs lm lab grp dtm a sigma_seeds group = Ok seeds
                /\ length seeds = length dtm.
Proof.
  intros Ha. unfold anisotropic_seeds, float_div.
  destruct (Req_dec_T a 0) as [|_]; [done|]. simpl.
  edestruct seeds_loop_ok as (seeds' & -> & Hlen).
  2:{ exists seeds'. split; [done|]. by rewrite Hlen, length_volume_map. }
  apply Forall_forall. intros i Hi%elem_of_seq.
  rewrite length_tabulate_like. lia.
Qed.

Lemma anisotropic_seeds_zero dtm sigma_seeds group :
  anisotropic_seeds gs lm lab grp dtm 0 sigma_seeds group = Raise ZeroDivisionError.
Proof.
  unfold anisotropic_seeds, float_div. destruct (Req_dec_T 0 0); done.
Qed.

Lemma height_map_ok pmap dtm sw grow :
  exists hmap, height_map gs pmap dtm sw grow = Ok hmap
               /\ length hmap = length (if grow then pmap else dtm).
Proof.
  unfold height_map, float_div. destruct (Req_dec_T sw 0).
  - eexists; split; [done|]. destruct grow; [done|apply length_volume_map].
  - simpl. eexists; split; [done|]. rewrite length_tabulate_like.
    destruct grow; [done|apply length_volume_map].
Qed.

Lemma pipeline_split pmap thr a ss sw mss preserve grow group :
  ws_anisotropic_distance_transform dt gs lm lab grp ws
    pmap thr a ss sw mss preserve grow group
  = match watershed_inputs dt gs lm lab grp pmap thr a ss sw preserve grow group with
    | Ok (s0, hmap, seeds) => stitch ws s0 hmap seeds mss
    | Raise e => Raise e
    end.
Proof.
  unfold ws_anisotropic_distance_transform, watershed_inputs.
  destruct (assert _) as [[]|e]; [|done]. cbn.
  destruct (getitem (shape pmap) 0) as [s0|e]; [|done]. cbn.
  destruct (getitem (shape pmap) 1) as [s1|e]; [|done]. cbn.
  destruct (getitem (shape pmap) 2) as [s2|e]; [|done]. cbn.
  destruct (assert _) as [[]|e]; [|done]. cbn.
  destruct (anisotropic_seeds _ _ _ _ _ _ _ _) as [seeds|e]; [|done]. cbn.
  destruct (height_map _ _ _ _ _) as [hmap|e]; done.
Qed.

Lemma watershed_inputs_ok pmap thr a ss sw preserve grow group s0 s1 s2 :
  valid_shape pmap s0 s1 s2 -> a <> 0%R ->
  exists hmap seeds,
    length hmap = s0 /\ length seeds = s0 /\
    watershed_inputs dt gs lm lab grp pmap thr a ss sw preserve grow group
    = Ok (s0, hmap, seeds).
Proof.
  intros (Hshape & H1 & H2) Ha. unfold watershed_inputs, ndim.
  rewrite Hshape. simpl.
  rewrite !bool_decide_eq_true_2 by done. simpl.
  set (p := as_volume s0 s1 s2 (buffer pmap)).
  set (dtm := signed_anisotropic_dt dt p thr a preserve).
  assert (Hp : length p = s0) by apply length_as_volume.
  assert (Hd : length dtm = s0).
  { unfold dtm. by rewrite length_signed_anisotropic_dt. }
  destruct (anisotropic_seeds_ok dtm a ss group Ha) as (seeds & -> & Hs).
  destruct (height_map_ok p dtm sw grow) as (hmap & -> & Hh). simpl.
  exists hmap, seeds. split; [destruct grow; congruence|]. split; [congruence|done].
Qed.

Lemma shape_assertions pmap :
  (exists s0 s1 s2, valid_shape pmap s0 s1 s2) \/
  (forall thr a ss sw preserve grow group,
     watershed_inputs dt gs lm lab grp pmap thr a ss sw preserve grow group
     = Raise AssertionError).
Proof.
  unfold watershed_inputs, ndim, valid_shape.
  destruct (shape pmap) as [|s0 [|s1 [|s2 [|s3 sh]]]]; try (right; done).
  destruct (decide (s0 < s1)%nat) as [H1|H1].
  - destruct (decide (s0 < s2)%nat) as [H2|H2].
    + left. by exists s0, s1, s2.
    + right. intros. simpl. rewrite (bool_decide_eq_false_2 _ H2), andb_false_r. done.
  - right. intros. simpl. rewrite (bool_decide_eq_false_2 _ H1). done.
Qed.

Lemma watershed_inputs_inv pmap thr a ss sw preserve grow group s0 hmap seeds :
  watershed_inputs dt gs lm lab grp pmap thr a ss sw preserve grow group
  = Ok (s0, hmap, seeds) ->
  (exists s1 s2, valid_shape pmap s0 s1 s2) /\ a <> 0%R /\
  length hmap = s0 /\ length seeds = s0.
Proof.
  intros H. destruct (shape_assertions pmap) as [(t0 & t1 & t2 & Hv)|Hbad].
  2:{ rewrite Hbad in H. done. }
  destruct (Req_dec_T a 0) as [->|Ha].
  { exfalso. revert H. destruct Hv as (Hshape & H1 & H2).
    unfold watershed_inputs, ndim. rewrite Hshape. simpl.
    rewrite !bool_decide_eq_true_2 by done. simpl.
    by rewrite anisotropic_seeds_zero. }
  destruct (watershed_inputs_ok pmap thr a ss sw preserve grow group _ _ _ Hv Ha)
    as (hmap' & seeds' & Hh & Hs & Heq).
  rewrite Heq in H. inversion H; subst. eauto 10.
Qed.

Lemma pipeline_unfold pmap thr a ss sw mss preserve grow group s0 hmap seeds :
  watershed_inputs dt gs lm lab grp pmap thr a ss sw preserve grow group
  = Ok (s0, hmap, seeds) ->
  ws_anisotropic_distance_transform dt gs lm lab grp ws
    pmap thr a ss sw mss preserve grow group
  = Ok (stitched (grow_all ws hmap seeds mss),
        offset_at (grow_all ws hmap seeds mss) s0)
  /\ length (grow_all ws hmap seeds mss) = s0.
Proof.
  intros H. rewrite pipeline_split, H.
  apply watershed_inputs_inv in H as (_ & _ & Hh & Hs).
  assert (Hg : length (grow_all ws hmap seeds mss) = s0).
  { unfold grow_all. rewrite length_zip_with. lia. }
  split; [|exact Hg].
  rewrite stitch_unfold by lia.
  rewrite take_ge by (rewrite stitched_length; lia).
  rewrite drop_ge by lia. by rewrite app_nil_r.
Qed.
End PipelineRuns.

(** ** Facts about the stitched labels *)

Lemma iadd32_isub32 offset l :
  iadd32 offset (isub32 1 l) = (l - 1 + offset) mod 2 ^ 32.
Proof.
  unfold iadd32, isub32, wrap32, uint32_mod.
  rewrite Zplus_mod_idemp_l. reflexivity.
Qed.

Lemma wrap32_range n : 0 <= wrap32 n < 2 ^ 32.
Proof. unfold wrap32, uint32_mod. apply Z.mod_pos_bound. lia. Qed.

Lemma slice_get_map {A B} (f : A -> B) (s : slice A) y x :
  slice_get (slice_map f s) y x = f <$> slice_get s y x.
Proof.
  unfold slice_get, slice_map.
  change (map (map f) s) with (fmap (M:=list) (fmap (M:=list) f) s).
  rewrite list_lookup_fmap. destruct (s !! y) as [row|]; [|done]. simpl.
  apply list_lookup_fmap.
Qed.

Lemma slice_values_map {A B} (f : A -> B) (s : slice A) :
  slice_values (slice_map f s) = map f (slice_values s).
Proof. unfold slice_values, slice_map. by rewrite concat_map. Qed.

Lemma slice_map_compose {A B C} (f : A -> B) (g : B -> C) (s : slice A) :
  slice_map g (slice_map f s) = slice_map (fun a => g (f a)) s.
Proof.
  unfold slice_map. rewrite map_map. apply map_ext. intros row. apply map_map.
Qed.

Lemma stitched_lookup (g : list (slice Z * Z)) z grown max_z :
  g !! z = Some (grown, max_z) ->
  stitched g !! z = Some (relabel (offset_at g z) grown).
Proof. intros H. unfold stitched. by rewrite list_lookup_imap, H. Qed.

(** Slice [z] of the result of the first [n] iterations, for [z < n]. *)
Lemma stitch_slice {px} (ws : slice px -> slice Z -> Z -> slice Z * Z)
    n (hmap : volume px) (seeds : volume Z) mss z grown max_z :
  (n <= length hmap)%nat -> (n <= length seeds)%nat -> (z < n)%nat ->
  grow_all ws hmap seeds mss !! z = Some (grown, max_z) ->
  (take n (stitched (grow_all ws hmap seeds mss)) ++ drop n seeds) !! z
  = Some (relabel (offset_at (grow_all ws hmap seeds mss) z) grown).
Proof.
  intros Hh Hs Hz Hg.
  assert (Hlen : length (take n (stitched (grow_all ws hmap seeds mss))) = n).
  { rewrite length_take, stitched_length. unfold grow_all.
    rewrite length_zip_with. lia. }
  rewrite lookup_app_l by lia. rewrite lookup_take_lt by lia.
  apply (stitched_lookup _ _ _ _ Hg).
Qed.

Lemma offset_at_0 (g : list (slice Z * Z)) : offset_at g 0 = 0.
Proof. reflexivity. Qed.

Lemma offset_at_ge (g : list (slice Z * Z)) n :
  (length g <= n)%nat -> offset_at g n = offset_at g (length g).
Proof. intros H. unfold offset_at. by rewrite !take_ge by lia. Qed.

(** With non-negative maximum labels the running offset never decreases. *)
Lemma offset_at_mono (g : list (slice Z * Z)) i j :
  Forall (fun r => 0 <= snd r) g -> (i <= j)%nat -> offset_at g i <= offset_at g j.
Proof.
  intros Hg Hij. induction Hij as [|j Hij IH]; [lia|].
  destruct (g !! j) as [r|] eqn:Hr.
  - rewrite (offset_at_S _ _ _ Hr).
    assert (0 <= snd r); [|lia].
    eapply (proj1 (Forall_lookup _ _) Hg). exact Hr.
  - apply lookup_ge_None in Hr.
    rewrite (offset_at_ge g (S j)), <- (offset_at_ge g j) by lia. exact IH.
Qed.

(** ** Label ranges of the stitched slices *)

Lemma relabel_values offset grown v :
  In v (slice_values (relabel offset grown)) ->
  exists l, In l (slice_values grown) /\ v = (l - 1 + offset) mod 2 ^ 32.
Proof.
  unfold relabel. rewrite slice_values_map. intros (l & <- & Hl)%in_map_iff.
  exists l. split; [exact Hl|apply iadd32_isub32].
Qed.

Lemma relabel_values_in offset grown l :
  In l (slice_values grown) ->
  In ((l - 1 + offset) mod 2 ^ 32) (slice_values (relabel offset grown)).
Proof.
  intros Hl. unfold relabel. rewrite slice_values_map, <- iadd32_isub32.
  apply in_map_iff. exists l. done.
Qed.

Lemma stitched_ordered (g : list (slice Z * Z)) z1 z2 s1 s2 v :
  Forall labels_1_to_max g ->
  offset_at g (length g) <= 2 ^ 32 ->
  (z1 < z2)%nat ->
  stitched g !! z1 = Some s1 -> stitched g !! z2 = Some s2 ->
  In v (slice_values s1) -> In v (slice_values s2) -> False.
Proof.
  intros Hg Htot Hlt H1 H2 Hv1 Hv2.
  assert (Hnn : Forall (fun r => 0 <= snd r) g).
  { eapply Forall_impl; [exact Hg|]. by intros r [? _]. }
  unfold stitched in H1, H2.
  apply list_lookup_imap_Some in H1 as ([grown1 m1] & Hg1 & ->).
  apply list_lookup_imap_Some in H2 as ([grown2 m2] & Hg2 & ->).
  cbn [fst] in *.
  apply relabel_values in Hv1 as (l1 & Hl1 & Hv1).
  apply relabel_values in Hv2 as (l2 & Hl2 & Hv2).
  destruct (proj1 (Forall_lookup _ _) Hg _ _ Hg1) as [Hm1 Hr1].
  destruct (proj1 (Forall_lookup _ _) Hg _ _ Hg2) as [Hm2 Hr2].
  cbn [fst snd] in *. specialize (Hr1 _ Hl1). specialize (Hr2 _ Hl2).
  pose proof (offset_at_S _ _ _ Hg1) as HS1. pose proof (offset_at_S _ _ _ Hg2) as HS2.
  cbn [snd] in *.
  pose proof (offset_at_mono g 0 z1 Hnn ltac:(lia)) as M0. rewrite offset_at_0 in M0.
  pose proof (offset_at_mono g (S z1) z2 Hnn ltac:(lia)) as M1.
  apply lookup_lt_Some in Hg2 as Hz2.
  pose proof (offset_at_mono g (S z2) (length g) Hnn ltac:(lia)) as M2.
  rewrite Z.mod_small in Hv1 by lia. rewrite Z.mod_small in Hv2 by lia. lia.
Qed.

Lemma stitched_disjoint (g : list (slice Z * Z)) z1 z2 s1 s2 v :
  Forall labels_1_to_max g ->
  offset_at g (length g) <= 2 ^ 32 ->
  z1 <> z2 ->
  stitched g !! z1 = Some s1 -> stitched g !! z2 = Some s2 ->
  In v (slice_values s1) -> In v (slice_values s2) -> False.
Proof.
  intros Hg Htot Hne H1 H2 Hv1 Hv2.
  destruct (Nat.lt_total z1 z2) as [Hlt|[Heq|Hgt]]; [|done|].
  - exact (stitched_ordered g z1 z2 s1 s2 v Hg Htot Hlt H1 H2 Hv1 Hv2).
  - exact (stitched_ordered g z2 z1 s2 s1 v Hg Htot Hgt H2 H1 Hv2 Hv1).
Qed.

Lemma stitched_range (g : list (slice Z * Z)) z y x v :
  volume_get (stitched g) z y x = Some v -> 0 <= v < 2 ^ 32.
Proof.
  unfold volume_get, stitched. rewrite list_lookup_imap.
  destruct (g !! z) as [[grown m]|]; [|done].
  cbn [fmap option_fmap option_map fst]. unfold relabel.
  rewrite slice_get_map. destruct (slice_get grown y x) as [l|]; [|done].
  cbn [fmap option_fmap option_map]. intros [= <-]. apply wrap32_range.
Qed.

(** A watershed that leaves the same labels and maximum in every slice. *)
Lemma grow_all_constant {px} (r : slice Z * Z) (hmap : volume px) (seeds : volume Z)
    mss z :
  (z < length hmap)%nat -> (z < length seeds)%nat ->
  grow_all (fun _ _ _ => r) hmap seeds mss !! z = Some r.
Proof.
  intros Hh Hs. unfold grow_all. rewrite lookup_zip_with.
  destruct (lookup_lt_is_Some_2 hmap z Hh) as [h ->].
  destruct (lookup_lt_is_Some_2 seeds z Hs) as [s ->]. done.
Qed.

(** ** Runs with a constant watershed *)

Lemma grow_all_replicate {px} (r : slice Z * Z) (hmap : volume px) (seeds : volume Z)
    mss n :
  length hmap = n -> length seeds = n ->
  grow_all (fun _ _ _ => r) hmap seeds mss = replicate n r.
Proof.
  intros Hh Hs. apply list_eq. intros z.
  destruct (decide (z < n)%nat) as [Hz|Hz].
  - rewrite grow_all_constant by lia. symmetry. by apply lookup_replicate_2.
  - rewrite (proj2 (lookup_ge_None _ _)).
    2:{ unfold grow_all. rewrite length_zip_with. lia. }
    symmetry. apply lookup_ge_None. rewrite length_replicate. lia.
Qed.

Section ConstantWatershed.
Context {f32 : Float32Cast} {marker : Type}.
Variable dt : volume Z -> bool -> R * R * R -> nat -> nat -> nat -> R.
Variable gs : volume R -> sigma -> nat -> nat -> nat -> R.
Variable lm : slice R -> slice marker.
Variable lab : slice marker -> slice Z.
Variable grp : slice marker -> slice R -> slice Z.

Lemma constant_watershed_run r pmap thr a ss sw mss preserve grow group s0 s1 s2 :
  valid_shape pmap s0 s1 s2 -> a <> 0%R ->
  exists hmap seeds,
    watershed_inputs dt gs lm lab grp pmap thr a ss sw preserve grow group
      = Ok (s0, hmap, seeds)
    /\ grow_all (fun _ _ _ => r) hmap seeds mss = replicate s0 r
    /\ ws_anisotropic_distance_transform dt gs lm lab grp (fun _ _ _ => r)
         pmap thr a ss sw mss preserve grow group
       = Ok (stitched (replicate s0 r), offset_at (replicate s0 r) s0).
Proof.
  intros Hv Ha.
  destruct (watershed_inputs_ok dt gs lm lab grp pmap thr a ss sw preserve grow group
              s0 s1 s2 Hv Ha) as (hmap & seeds & Hh & Hs & Hin).
  exists hmap, seeds. split; [exact Hin|].
  pose proof (grow_all_replicate r hmap seeds mss s0 Hh Hs) as Hg.
  split; [exact Hg|].
  destruct (pipeline_unfold dt gs lm lab grp (fun _ _ _ => r) pmap thr a ss sw mss
              preserve grow group s0 hmap seeds Hin) as [Hrun _].
  rewrite Hrun, Hg. reflexivity.
Qed.
End ConstantWatershed.

(** Every label from 1 to [2^32 - 1], and no other, occurs in
    [every_label]. *)
Lemma every_label_values l :
  In l (slice_values every_label) <-> 1 <= l <= 4294967295.
Proof.
  unfold slice_values, every_label. rewrite in_concat. split.
  - intros (row & (y & <- & Hy)%in_map_iff & (x & <- & Hx)%in_map_iff).
    apply list_elem_of_In, elem_of_seqZ in Hy.
    apply list_elem_of_In, elem_of_seqZ in Hx. lia.
  - intros Hl. exists (map (fun x => Z.max 1 (65536 * (l / 65536) + x)) (seqZ 0 65536)).
    pose proof (Z.div_mod l 65536 ltac:(lia)) as Hdm.
    pose proof (Z.mod_pos_bound l 65536 ltac:(lia)) as Hmod.
    assert (0 <= l / 65536 < 65536).
    { split; [apply Z.div_pos; lia|apply Z.div_lt_upper_bound; lia]. }
    split.
    + apply in_map_iff. exists (l / 65536). split; [done|].
      apply list_elem_of_In, elem_of_seqZ. lia.
    + apply in_map_iff. exists (l mod 65536). split; [lia|].
      apply list_elem_of_In, elem_of_seqZ. lia.
Qed.

(** Two slices with the same watershed result. *)
Lemma stitched_two (b : slice Z) (m : Z) :
  (stitched (replicate 2 (b, m)), offset_at (replicate 2 (b, m)) 2)
  = ([relabel 0 b; relabel (m + 0) b], m + (m + 0)).
Proof. reflexivity. Qed.

(** ** Kernels that agree on every argument *)

Lemma tabulate_like_ext {A B} (k1 k2 : nat -> nat -> nat -> B) (a : volume A) :
  (forall z y x, k1 z y x = k2 z y x) -> tabulate_like k1 a = tabulate_like k2 a.
Proof.
  intros H. unfold tabulate_like.
  apply imap_ext. intros z s _. apply imap_ext. intros y row _.
  apply imap_ext. intros x v _. apply H.
Qed.

Lemma for_loop_ext {S X} (body1 body2 : S -> X -> result S) xs st :
  (forall st x, body1 st x = body2 st x) ->
  for_loop body1 xs st = for_loop body2 xs st.
Proof.
  intros H. revert st. induction xs as [|x xs IH]; intros st; [reflexivity|].
  cbn [for_loop]. rewrite H. destruct (body2 st x) as [st'|e]; [apply IH|reflexivity].
Qed.

Lemma signed_anisotropic_dt_ext {f32 : Float32Cast} dt1 dt2 pmap thr a preserve :
  (forall m b p z y x, dt1 m b p z y x = dt2 m b p z y x) ->
  signed_anisotropic_dt dt1 pmap thr a preserve
  = signed_anisotropic_dt dt2 pmap thr a preserve.
Proof.
  intros H. unfold signed_anisotropic_dt.
  rewrite (tabulate_like_ext
             (dt1 (volume_map (threshold_mask thr) pmap) true (a, 1%R, 1%R))
             (dt2 (volume_map (threshold_mask thr) pmap) true (a, 1%R, 1%R)))
    by (intros; apply H).
  rewrite (tabulate_like_ext
             (dt1 (volume_map (threshold_mask thr) pmap) false (a, 1%R, 1%R))
             (dt2 (volume_map (threshold_mask thr) pmap) false (a, 1%R, 1%R)))
    by (intros; apply H).
  reflexivity.
Qed.

Lemma seeds_body_ext {marker} (lm1 lm2 : slice R -> slice marker)
    (lab1 lab2 : slice marker -> slice Z)
    (grp1 grp2 : slice marker -> slice R -> slice Z) seed_map dtm group seeds z :
  (forall s, lm1 s = lm2 s) -> (forall s, lab1 s = lab2 s) ->
  (forall s d, grp1 s d = grp2 s d) ->
  seeds_body lm1 lab1 grp1 seed_map dtm group seeds z
  = seeds_body lm2 lab2 grp2 seed_map dtm group seeds z.
Proof.
  intros Hlm Hlab Hgrp. unfold seeds_body.
  destruct (getitem seed_map z) as [sm|e]; [|reflexivity]. cbn.
  rewrite Hlm. destruct group.
  - destruct (getitem dtm z) as [d|e]; [|reflexivity]. cbn. by rewrite Hgrp.
  - cbn. by rewrite Hlab.
Qed.

Lemma anisotropic_seeds_ext {marker} gs1 gs2 (lm1 lm2 : slice R -> slice marker)
    (lab1 lab2 : slice marker -> slice Z)
    (grp1 grp2 : slice marker -> slice R -> slice Z) dtm a ss group :
  (forall v s z y x, gs1 v s z y x = gs2 v s z y x) ->
  (forall s, lm1 s = lm2 s) -> (forall s, lab1 s = lab2 s) ->
  (forall s d, grp1 s d = grp2 s d) ->
  anisotropic_seeds gs1 lm1 lab1 grp1 dtm a ss group
  = anisotropic_seeds gs2 lm2 lab2 grp2 dtm a ss group.
Proof.
  intros Hgs Hlm Hlab Hgrp. unfold anisotropic_seeds.
  destruct (float_div 1 a) as [inv|e]; [|reflexivity]. cbn.
  rewrite (tabulate_like_ext (gs1 dtm (SigmaPerAxis inv 1 1))
             (gs2 dtm (SigmaPerAxis inv 1 1))) by (intros; apply Hgs).
  apply for_loop_ext. intros seeds z. by apply seeds_body_ext.
Qed.

Lemma height_map_ext gs1 gs2 pmap dtm sw grow :
  (forall v s z y x, gs1 v s z y x = gs2 v s z y x) ->
  height_map gs1 pmap dtm sw grow = height_map gs2 pmap dtm sw grow.
Proof.
  intros Hgs. unfold height_map.
  destruct (Req_dec_T sw 0); [reflexivity|].
  destruct (float_div 1 sw) as [s|e]; [|reflexivity]. cbn.
  f_equal. apply tabulate_like_ext. intros. apply Hgs.
Qed.

Lemma stitch_ext {px} (ws1 ws2 : slice px -> slice Z -> Z -> slice Z * Z)
    n hmap seeds mss :
  (forall h s m, ws1 h s m = ws2 h s m) ->
  stitch ws1 n hmap seeds mss = stitch ws2 n hmap seeds mss.
Proof.
  intros Hws. unfold stitch. apply for_loop_ext. intros [sd off] z.
  unfold stitch_body.
  destruct (getitem hmap z) as [h|e]; [|reflexivity]. cbn.
  destruct (getitem sd z) as [s|e]; [|reflexivity]. cbn.
  by rewrite Hws.
Qed.

(** ** The shape assertions and the division *)

Section EntryFailures.
Context {f32 : Float32Cast} {marker : Type}.
Variable dt : volume Z -> bool -> R * R * R -> nat -> nat -> nat -> R.
Variable gs : volume R -> sigma -> nat -> nat -> nat -> R.
Variable lm : slice R -> slice marker.
Variable lab : slice marker -> slice Z.
Variable grp : slice marker -> slice R -> slice Z.
Variable ws : slice R -> slice Z -> Z -> slice Z * Z.

Lemma watershed_inputs_zero pmap thr ss sw preserve grow group s0 s1 s2 :
  valid_shape pmap s0 s1 s2 ->
  watershed_inputs dt gs lm lab grp pmap thr 0 ss sw preserve grow group
  = Raise ZeroDivisionError.
Proof.
  intros (Hshape & H1 & H2). unfold watershed_inputs, ndim.
  rewrite Hshape. simpl. rewrite !bool_decide_eq_true_2 by done. simpl.
  by rewrite anisotropic_seeds_zero.
Qed.

Lemma valid_shape_no_assertion pmap thr a ss sw mss preserve grow group s0 s1 s2 :
  valid_shape pmap s0 s1 s2 ->
  ws_anisotropic_distance_transform dt gs lm lab grp ws
    pmap thr a ss sw mss preserve grow group <> Raise AssertionError.
Proof.
  intros Hv. rewrite pipeline_split.
  destruct (Req_dec_T a 0) as [->|Ha].
  - by rewrite (watershed_inputs_zero pmap thr ss sw preserve grow group _ _ _ Hv).
  - destruct (watershed_inputs_ok dt gs lm lab grp pmap thr a ss sw preserve grow
                group _ _ _ Hv Ha) as (hmap & seeds & Hh & Hs & Hin).
    rewrite Hin, stitch_unfold by lia. discriminate.
Qed.

Lemma invalid_shape_assertion pmap thr a ss sw mss preserve grow group :
  ~ (exists s0 s1 s2, valid_shape pmap s0 s1 s2) ->
  ws_anisotropic_distance_transform dt gs lm lab grp ws
    pmap thr a ss sw mss preserve grow group = Raise AssertionError.
Proof.
  intros Hbad. rewrite pipeline_split.
  destruct (shape_assertions dt gs lm lab grp pmap) as [Hv|Hraise]; [done|].
  by rewrite Hraise.
Qed.
End EntryFailures.

(** ** The example volume *)

Lemma sqrt_quarter : sqrt (/ 4) = (/ 2)%R.
Proof. apply sqrt_lem_1; lra. Qed.

(** * The label stitcher *)

Section StitcherClaims.
Context {px : Type}.
Variable iterative_inplace_watershed : slice px -> slice Z -> Z -> slice Z * Z.


(** C10.  The subtraction and the addition of the loop touch every voxel
    of the slice: a voxel the watershed leaves at label 0 ends with label
    [(offset - 1) mod 2^32], which is 0 only when the offset is 1 modulo
    [2^32]; in the first slice it is [2^32 - 1]. *)
Theorem stitch_zero_label (n : nat) (hmap : volume px) (seeds : volume Z)
    (min_segment_size : Z) (z y x : nat) (grown : slice Z) (max_z : Z) :
  (n <= length hmap)%nat -> (n <= length seeds)%nat -> (z < n)%nat ->
  let g := grow_all iterative_inplace_watershed hmap seeds min_segment_size in
  g !! z = Some (grown, max_z) ->
  slice_get grown y x = Some 0 ->
  exists out count,
    stitch iterative_inplace_watershed n hmap seeds min_segment_size = Ok (out, count)
    /\ volume_get out z y x = Some ((offset_at g z - 1) mod 2 ^ 32)
    /\ ((offset_at g z - 1) mod 2 ^ 32 = 0 <-> offset_at g z mod 2 ^ 32 = 1)
    /\ (z = 0%nat -> volume_get out z y x = Some (2 ^ 32 - 1)).
Proof.
  intros Hh Hs Hz g Hg Hzero.
  pose proof (stitch_unfold iterative_inplace_watershed n hmap seeds
                min_segment_size Hh Hs) as Hout.
  pose proof (stitch_slice iterative_inplace_watershed n hmap seeds
                min_segment_size z grown max_z Hh Hs Hz Hg) as Hoz.
  fold g in Hout, Hoz.
  set (out := take n (stitched g) ++ drop n seeds) in *.
  assert (Hv : volume_get out z y x = Some ((offset_at g z - 1) mod 2 ^ 32)).
  { unfold volume_get. rewrite Hoz. unfold relabel.
    rewrite slice_get_map, Hzero. simpl. f_equal.
    rewrite iadd32_isub32. f_equal. lia. }
  exists out, (offset_at g n). split; [exact Hout|]. split; [exact Hv|]. split.
  - split; intros H.
    + apply Z.mod_divide in H; [|lia]. destruct H as [k Hk].
      replace (offset_at g z) with (1 + k * 2 ^ 32) by lia.
      rewrite Z_mod_plus_full. reflexivity.
    + rewrite Zminus_mod, H. reflexivity.
  - intros ->. rewrite Hv. reflexivity.
Qed.
End StitcherClaims.


Lemma stitch_zero_label_witness :
  exists out count,
    stitch keep_seeds 2 two_slices two_seeds 0 = Ok (out, count)
    /\ volume_get out 1 0 0 = Some ((offset_at (grow_all keep_seeds two_slices two_seeds 0) 1 - 1) mod 2 ^ 32)
    /\ ((offset_at (grow_all keep_seeds two_slices two_seeds 0) 1 - 1) mod 2 ^ 32 = 0
        <-> offset_at (grow_all keep_seeds two_slices two_seeds 0) 1 mod 2 ^ 32 = 1)
    /\ (1%nat = 0%nat -> volume_get out 1 0 0 = Some (2 ^ 32 - 1)).
Proof.
  apply (stitch_zero_label keep_seeds 2 two_slices two_seeds 0 1 0 0 [[0; 1]] 2);
    simpl; first [lia | reflexivity].
Defined.

(** * The entry point: labels and segment count *)

Section PipelineLabels.
Context {f32 : Float32Cast} {marker : Type}.
Variable distanceTransform :
  volume Z -> bool -> R * R * R -> nat -> nat -> nat -> R.
Variable gaussianSmoothing : volume R -> sigma -> nat -> nat -> nat -> R.
Variable localMaxima : slice R -> slice marker.
Variable labelMultiArrayWithBackground : slice marker -> slice Z.
Variable group_seeds_by_distance : slice marker -> slice R -> slice Z.
Variable iterative_inplace_watershed : slice R -> slice Z -> Z -> slice Z * Z.

(** C2, amended.  When the watershed of every slice uses labels between 1
    and the maximum it returns, and the total segment count does not
    exceed [2^32], no label value occurs in two distinct z-slices of the
    returned labels. *)
Theorem stitched_labels_unique (pmap : ndarray R)
    (threshold anisotropy sigma_seeds sigma_weights : R) (min_segment_size : Z)
    (preserve_membrane_pmaps grow_on_pmap group_seeds : bool)
    (s0 : nat) (hmap : volume R) (seeds : volume Z) :
  watershed_inputs distanceTransform gaussianSmoothing localMaxima
    labelMultiArrayWithBackground group_seeds_by_distance
    pmap threshold anisotropy sigma_seeds sigma_weights
    preserve_membrane_pmaps grow_on_pmap group_seeds = Ok (s0, hmap, seeds) ->
  let g := grow_all iterative_inplace_watershed hmap seeds min_segment_size in
  Forall labels_1_to_max g ->
  offset_at g s0 <= 2 ^ 32 ->
  exists out,
    ws_anisotropic_distance_transform distanceTransform gaussianSmoothing
      localMaxima labelMultiArrayWithBackground group_seeds_by_distance
      iterative_inplace_watershed
      pmap threshold anisotropy sigma_seeds sigma_weights min_segment_size
      preserve_membrane_pmaps grow_on_pmap group_seeds = Ok (out, offset_at g s0)
    /\ forall z1 z2 slice1 slice2 v,
         z1 <> z2 -> out !! z1 = Some slice1 -> out !! z2 = Some slice2 ->
         In v (slice_values slice1) -> ~ In v (slice_values slice2).
Proof.
  intros Hin g Hg Htot.
  destruct (pipeline_unfold distanceTransform gaussianSmoothing localMaxima
              labelMultiArrayWithBackground group_seeds_by_distance
              iterative_inplace_watershed pmap threshold anisotropy sigma_seeds
              sigma_weights min_segment_size preserve_membrane_pmaps grow_on_pmap
              group_seeds s0 hmap seeds Hin) as [Hrun Hlen].
  fold g in Hrun, Hlen. exists (stitched g). split; [exact Hrun|].
  intros z1 z2 slice1 slice2 v Hne H1 H2 Hv1 Hv2.
  eapply (stitched_disjoint g z1 z2); eauto. by rewrite Hlen.
Qed.

(** C8, amended.  The entry point has no check of the label space: for
    every input that passes the shape assertions, with a non-zero
    anisotropy, it returns normally, whatever the segment count.  The
    count is the exact sum of the per-slice maximum labels, an unbounded
    integer, and every stored label is reduced modulo [2^32]: where the
    watershed of slice [z] has label [l], the result has
    [(l - 1 + offset) mod 2^32], with [offset] the sum of the maximum
    labels of the slices before [z], and so a value of the [uint32]
    range. *)
Theorem segment_count_unchecked (pmap : ndarray R)
    (threshold anisotropy sigma_seeds sigma_weights : R) (min_segment_size : Z)
    (preserve_membrane_pmaps grow_on_pmap group_seeds : bool) (s0 s1 s2 : nat) :
  valid_shape pmap s0 s1 s2 -> anisotropy <> 0%R ->
  exists hmap seeds out,
    watershed_inputs distanceTransform gaussianSmoothing localMaxima
      labelMultiArrayWithBackground group_seeds_by_distance
      pmap threshold anisotropy sigma_seeds sigma_weights
      preserve_membrane_pmaps grow_on_pmap group_seeds = Ok (s0, hmap, seeds)
    /\ let g := grow_all iterative_inplace_watershed hmap seeds
                  min_segment_size in
       ws_anisotropic_distance_transform distanceTransform gaussianSmoothing
         localMaxima labelMultiArrayWithBackground group_seeds_by_distance
         iterative_inplace_watershed
         pmap threshold anisotropy sigma_seeds sigma_weights min_segment_size
         preserve_membrane_pmaps grow_on_pmap group_seeds
       = Ok (out, foldr Z.add 0 (map snd g))
       /\ length out = s0
       /\ (forall z grown max_z,
             g !! z = Some (grown, max_z) ->
             out !! z
             = Some (slice_map
                       (fun l => (l - 1 + foldr Z.add 0 (map snd (take z g)))
                                 mod 2 ^ 32) grown))
       /\ forall z y x v, volume_get out z y x = Some v -> 0 <= v < 2 ^ 32.
Proof.
  intros Hv Ha.
  destruct (watershed_inputs_ok distanceTransform gaussianSmoothing localMaxima
              labelMultiArrayWithBackground group_seeds_by_distance pmap threshold
              anisotropy sigma_seeds sigma_weights preserve_membrane_pmaps
              grow_on_pmap group_seeds s0 s1 s2 Hv Ha) as (hmap & seeds & _ & _ & Hin).
  destruct (pipeline_unfold distanceTransform gaussianSmoothing localMaxima
              labelMultiArrayWithBackground group_seeds_by_distance
              iterative_inplace_watershed pmap threshold anisotropy sigma_seeds
              sigma_weights min_segment_size preserve_membrane_pmaps grow_on_pmap
              group_seeds s0 hmap seeds Hin) as [Hrun Hlen].
  exists hmap, seeds, (stitched (grow_all iterative_inplace_watershed hmap seeds
                                  min_segment_size)).
  split; [exact Hin|]. intros g. subst g.
  split; [|split; [|split]].
  - rewrite Hrun. unfold offset_at. rewrite take_ge by lia. reflexivity.
  - by rewrite stitched_length.
  - intros z grown max_z Hg.
    rewrite (stitched_lookup _ _ _ _ Hg). f_equal. unfold relabel, slice_map.
    apply map_ext. intros row. apply map_ext. intros l.
    apply iadd32_isub32.
  - intros z y x v. apply stitched_range.
Qed.
End PipelineLabels.

Lemma membrane_over_tissue_shape : valid_shape membrane_over_tissue 2 3 3.
Proof. repeat split; simpl; lia. Qed.

Lemma large_volume_shape : valid_shape large_volume 2 side side.
Proof. repeat split; unfold side; lia. Qed.

Lemma stitched_labels_unique_witness :
  exists hmap seeds out,
    inputs_of membrane_over_tissue (1/2) 1 1 0 true true false = Ok (2%nat, hmap, seeds)
    /\ run_with two_segments membrane_over_tissue (1/2) 1 1 0 0 true true false
       = Ok (out, offset_at (grow_all two_segments hmap seeds 0) 2)
    /\ forall z1 z2 slice1 slice2 v,
         z1 <> z2 -> out !! z1 = Some slice1 -> out !! z2 = Some slice2 ->
         In v (slice_values slice1) -> ~ In v (slice_values slice2).
Proof.
  destruct (constant_watershed_run (f32 := float32_values) unit_distance no_smoothing all_maxima one_component
              one_group ([[1; 1; 2]; [1; 2; 2]; [1; 2; 2]], 2)
              membrane_over_tissue (1/2) 1 1 0 0 true true false 2 3 3
              membrane_over_tissue_shape ltac:(lra)) as (hmap & seeds & Hin & Hg & _).
  exists hmap, seeds.
  destruct (stitched_labels_unique (f32 := float32_values) unit_distance no_smoothing all_maxima one_component
              one_group two_segments membrane_over_tissue (1/2) 1 1 0 0 true true false
              2 hmap seeds Hin) as (out & Hrun & Huniq).
  - unfold two_segments. rewrite Hg.
    assert (Hr : labels_1_to_max ([[1; 1; 2]; [1; 2; 2]; [1; 2; 2]], 2)).
    { split; [simpl; lia|]. simpl. intros l Hl. lia. }
    apply Forall_cons_2; [exact Hr|]. apply Forall_cons_2; [exact Hr|]. apply Forall_nil_2.
  - unfold two_segments. rewrite Hg. unfold offset_at. simpl. lia.
  - exists out. split; [exact Hin|]. split; [exact Hrun|exact Huniq].
Defined.

(** C2 as stated fails: with slices of 65536 x 65536 voxels in which the
    watershed uses every label from 1 to [2^32 - 1], the label 1 is in both
    slices of the result: label 2 of slice 0 and label 3 of slice 1, the
    latter wrapped around [2^32]. *)
Lemma stitched_labels_collide :
  exists hmap seeds out count,
    inputs_of large_volume (1/2) 1 1 0 true true false = Ok (2%nat, hmap, seeds)
    /\ (forall z grown max_z,
          grow_all all_segments hmap seeds 0 !! z = Some (grown, max_z) ->
          forall l, In l (slice_values grown) <-> 1 <= l <= max_z)
    /\ run_with all_segments large_volume (1/2) 1 1 0 0 true true false
       = Ok (out, count)
    /\ exists slice0 slice1,
         out !! 0%nat = Some slice0 /\ out !! 1%nat = Some slice1
         /\ 0 < 1 /\ In 1 (slice_values slice0) /\ In 1 (slice_values slice1).
Proof.
  destruct (constant_watershed_run (f32 := float32_values) unit_distance no_smoothing all_maxima one_component
              one_group (every_label, 4294967295)
              large_volume (1/2) 1 1 0 0 true true false 2 side side
              large_volume_shape ltac:(lra)) as (hmap & seeds & Hin & Hg & Hrun).
  rewrite stitched_two in Hrun.
  exists hmap, seeds, [relabel 0 every_label; relabel (4294967295 + 0) every_label].
  eexists. split; [exact Hin|]. split; [|split].
  - unfold all_segments. rewrite Hg. intros z grown max_z Hz.
    apply lookup_replicate_1 in Hz as [Heq _].
    assert (Hgrown : grown = every_label) by congruence.
    assert (Hmax : max_z = 4294967295) by congruence.
    rewrite Hgrown, Hmax. apply every_label_values.
  - exact Hrun.
  - exists (relabel 0 every_label), (relabel (4294967295 + 0) every_label).
    split; [reflexivity|]. split; [reflexivity|]. split; [lia|]. split.
    + change 1 with ((2 - 1 + 0) mod 2 ^ 32).
      apply relabel_values_in. apply every_label_values. lia.
    + change 1 with ((3 - 1 + (4294967295 + 0)) mod 2 ^ 32).
      apply relabel_values_in. apply every_label_values. lia.
Qed.

Lemma segment_count_unchecked_witness :
  exists hmap seeds out,
    inputs_of membrane_over_tissue (1/2) 1 1 0 true true false = Ok (2%nat, hmap, seeds)
    /\ let g := grow_all two_segments hmap seeds 0 in
       run_with two_segments membrane_over_tissue (1/2) 1 1 0 0 true true false
       = Ok (out, foldr Z.add 0 (map snd g))
       /\ length out = 2%nat
       /\ (forall z grown max_z,
             g !! z = Some (grown, max_z) ->
             out !! z
             = Some (slice_map
                       (fun l => (l - 1 + foldr Z.add 0 (map snd (take z g)))
                                 mod 2 ^ 32) grown))
       /\ forall z y x v, volume_get out z y x = Some v -> 0 <= v < 2 ^ 32.
Proof.
  apply (segment_count_unchecked (f32 := float32_values) unit_distance no_smoothing all_maxima one_component
           one_group two_segments membrane_over_tissue (1/2) 1 1 0 0 true true false
           2 3 3 membrane_over_tissue_shape).
  lra.
Defined.

(** C8 as stated fails: two slices of 65536 x 65536 voxels in which the
    watershed finds [2^32 - 1] segments each give a segment count of
    [2^33 - 2], which no [uint32] holds; the entry point returns normally,
    with that count, and label 3 of the second slice is stored as 1 where
    the unbounded sum is [4294967297]. *)
Lemma label_space_not_checked :
  exists out,
    run_with all_segments large_volume (1/2) 1 1 0 0 true true false
      = Ok (out, 8589934590)
    /\ 2 ^ 32 - 1 < 8589934590
    /\ exists slice1,
         out !! 1%nat = Some slice1
         /\ In 3 (slice_values every_label)
         /\ 3 - 1 + 4294967295 = 4294967297
         /\ In 1 (slice_values slice1).
Proof.
  destruct (constant_watershed_run (f32 := float32_values) unit_distance no_smoothing all_maxima one_component
              one_group (every_label, 4294967295)
              large_volume (1/2) 1 1 0 0 true true false 2 side side
              large_volume_shape ltac:(lra)) as (hmap & seeds & _ & _ & Hrun).
  rewrite stitched_two in Hrun.
  eexists. split; [exact Hrun|]. split; [lia|].
  exists (relabel (4294967295 + 0) every_label).
  split; [reflexivity|]. split; [apply every_label_values; lia|]. split; [lia|].
  change 1 with ((3 - 1 + (4294967295 + 0)) mod 2 ^ 32).
  apply relabel_values_in. apply every_label_values. lia.
Qed.

(** * The distance field builder *)

Local Open Scope R_scope.

Section BuilderClaims.
Context {f32 : Float32Cast}.
Variable distanceTransform :
  volume Z -> bool -> R * R * R -> nat -> nat -> nat -> R.

(** C5.  At every voxel of the probability map, with [to_membrane] and
    [to_nonmembrane] the two distance transforms of the thresholded mask:
    the mask holds 1 where the voxel reaches the threshold, compared in
    [float32] as line 13 does, and 0 elsewhere; when the membrane
    probabilities are preserved, a voxel of the mask holds the negated
    probability and any other voxel the distance to the membrane;
    otherwise the voxel holds the distance to the membrane minus the
    distance to the non-membrane, the latter reduced by one where it is
    strictly positive. *)
Theorem signed_dt_voxel (pmap : volume R) (threshold anisotropy : R)
    (z y x : nat) (p : R) :
  volume_get pmap z y x = Some p ->
  let mask := volume_map (threshold_mask threshold) pmap in
  let to_membrane := distanceTransform mask true (anisotropy, 1, 1) z y x in
  let to_nonmembrane := distanceTransform mask false (anisotropy, 1, 1) z y x in
  volume_get mask z y x
    = Some (if Rge_dec p (float32 threshold) then 1%Z else 0%Z)
  /\ (p >= float32 threshold ->
        volume_get (signed_anisotropic_dt distanceTransform pmap threshold
                      anisotropy true) z y x = Some (- p))
  /\ (p < float32 threshold ->
        volume_get (signed_anisotropic_dt distanceTransform pmap threshold
                      anisotropy true) z y x = Some to_membrane)
  /\ volume_get (signed_anisotropic_dt distanceTransform pmap threshold
                   anisotropy false) z y x
     = Some (to_membrane
             - (if Rlt_dec 0 to_nonmembrane then to_nonmembrane - 1
                else to_nonmembrane)).
Proof.
  intros Hp mask to_membrane to_nonmembrane.
  pose proof (signed_dt_preserve distanceTransform pmap threshold anisotropy
                z y x p Hp) as Hpres.
  pose proof (signed_dt_combine distanceTransform pmap threshold anisotropy
                z y x p Hp) as Hcomb.
  split; [|split; [|split]].
  - unfold mask. rewrite volume_get_map, Hp. reflexivity.
  - intros Hge. rewrite Hpres.
    destruct (Rge_dec p (float32 threshold)); [reflexivity|lra].
  - intros Hlt. rewrite Hpres.
    destruct (Rge_dec p (float32 threshold)); [lra|reflexivity].
  - exact Hcomb.
Qed.
End BuilderClaims.

(** A membrane voxel of the example volume, threshold 1/2. *)
Lemma signed_dt_voxel_witness :
  let mask := volume_map (threshold_mask (f32 := float32_values) (1 / 2))
                membrane_volume in
  volume_get mask 0 0 0 = Some (if Rge_dec 1 (1 / 2) then 1%Z else 0%Z)
  /\ (1 >= 1 / 2 ->
        volume_get (signed_anisotropic_dt (f32 := float32_values) unit_distance
                      membrane_volume (1 / 2) 1 true) 0 0 0 = Some (- 1))
  /\ (1 < 1 / 2 ->
        volume_get (signed_anisotropic_dt (f32 := float32_values) unit_distance
                      membrane_volume (1 / 2) 1 true) 0 0 0
        = Some (unit_distance mask true (1, 1, 1) 0 0 0))
  /\ volume_get (signed_anisotropic_dt (f32 := float32_values) unit_distance
                   membrane_volume (1 / 2) 1 false) 0 0 0
     = Some (unit_distance mask true (1, 1, 1) 0 0 0
             - (if Rlt_dec 0 (unit_distance mask false (1, 1, 1) 0 0 0)
                then unit_distance mask false (1, 1, 1) 0 0 0 - 1
                else unit_distance mask false (1, 1, 1) 0 0 0)).
Proof.
  apply (signed_dt_voxel (f32 := float32_values) unit_distance membrane_volume
           (1 / 2) 1 0 0 0 1).
  reflexivity.
Defined.

(** C6, amended.  With the Euclidean distance transform, probabilities in
    [[0, 1]], and an anisotropy that is positive when the membrane
    probabilities are preserved and at least 1 when they are not, the signed
    field is strictly positive outside the thresholded mask and at most 0
    inside it; the mask is the one of line 13, the voxels that reach the
    threshold in the [float32] comparison. *)
Theorem signed_dt_sign {f32 : Float32Cast} (pmap : volume R)
    (threshold anisotropy : R) (preserve_membrane_pmaps : bool) :
  (forall z y x p, volume_get pmap z y x = Some p -> 0 <= p <= 1) ->
  (if preserve_membrane_pmaps then 0 < anisotropy else 1 <= anisotropy) ->
  forall z y x p,
    volume_get pmap z y x = Some p ->
    exists v,
      volume_get (signed_anisotropic_dt euclidean_dt pmap threshold anisotropy
                    preserve_membrane_pmaps) z y x = Some v
      /\ volume_get (volume_map (threshold_mask threshold) pmap) z y x
         = Some (if Rge_dec p (float32 threshold) then 1%Z else 0%Z)
      /\ (p < float32 threshold -> 0 < v)
      /\ (p >= float32 threshold -> v <= 0).
Proof.
  intros Hrange Ha z y x p Hp.
  set (mask := volume_map (threshold_mask threshold) pmap).
  assert (Hm : volume_get mask z y x = Some (threshold_mask threshold p)).
  { unfold mask. by rewrite volume_get_map, Hp. }
  destruct (Hrange z y x p Hp) as [Hp0 Hp1].
  destruct preserve_membrane_pmaps.
  - rewrite (signed_dt_preserve euclidean_dt pmap threshold anisotropy z y x p Hp).
    eexists. split; [reflexivity|]. split; [exact Hm|].
    unfold threshold_mask in Hm.
    destruct (Rge_dec p (float32 threshold)) as [Hge|Hnge].
    + split; [lra|intros _; lra].
    + split; [|lra]. intros _.
      apply (euclidean_dt_positive mask true anisotropy z y x 0%Z Hm); [reflexivity|lra].
  - rewrite (signed_dt_combine euclidean_dt pmap threshold anisotropy z y x p Hp).
    eexists. split; [reflexivity|]. split; [exact Hm|]. fold mask.
    unfold threshold_mask in Hm.
    destruct (Rge_dec p (float32 threshold)) as [Hge|Hnge].
    + rewrite (euclidean_dt_target mask true (anisotropy, 1, 1) z y x 1%Z Hm)
        by reflexivity.
      pose proof (euclidean_dt_ge_1 mask false anisotropy z y x 1%Z Hm eq_refl Ha)
        as Hd.
      unfold adjust. destruct (Rlt_dec 0 _); split; lra.
    + rewrite (euclidean_dt_target mask false (anisotropy, 1, 1) z y x 0%Z Hm)
        by reflexivity.
      pose proof (euclidean_dt_positive mask true anisotropy z y x 0%Z Hm eq_refl
                    ltac:(lra)) as Hd.
      unfold adjust. destruct (Rlt_dec 0 0); split; lra.
Qed.

Lemma membrane_volume_range z y x p :
  volume_get membrane_volume z y x = Some p -> 0 <= p <= 1.
Proof.
  intros H.
  destruct z as [|[|z]]; [| |discriminate];
    (destruct y as [|[|[|y]]]; [| | |discriminate]);
    (destruct x as [|[|[|x]]]; [| | |discriminate]);
    injection H as <-; lra.
Qed.

Lemma signed_dt_sign_witness :
  exists v,
    volume_get (signed_anisotropic_dt (f32 := float32_values) euclidean_dt
                  membrane_volume (1 / 2) 1 false) 0 0 0 = Some v
    /\ volume_get (volume_map (threshold_mask (f32 := float32_values) (1 / 2))
                     membrane_volume) 0 0 0
       = Some (if Rge_dec 1 (1 / 2) then 1%Z else 0%Z)
    /\ (1 < 1 / 2 -> 0 < v)
    /\ (1 >= 1 / 2 -> v <= 0).
Proof.
  apply (signed_dt_sign (f32 := float32_values) membrane_volume (1 / 2) 1 false
           membrane_volume_range).
  - simpl. lra.
  - reflexivity.
Defined.

(** C6 as stated fails: with anisotropy 1/2 and the membrane probabilities
    not preserved, a membrane voxel right above a non-membrane voxel is at
    distance 1/2 from it, and the signed field there is [0 - (1/2 - 1)],
    which is positive.  The threshold 1/2 and the probabilities 0 and 1 are
    [float32] values. *)
Lemma signed_dt_positive_inside :
  (forall z y x p, volume_get membrane_volume z y x = Some p -> 0 <= p <= 1)
  /\ volume_get membrane_volume 0 0 0 = Some 1
  /\ 1 >= 1 / 2
  /\ volume_get (volume_map (threshold_mask (f32 := float32_values) (1 / 2))
                   membrane_volume) 0 0 0 = Some 1%Z
  /\ volume_get (signed_anisotropic_dt (f32 := float32_values) euclidean_dt
                   membrane_volume (1 / 2) (1 / 2) false) 0 0 0 = Some (1 / 2)
  /\ 0 < 1 / 2.
Proof.
  set (mask := volume_map (threshold_mask (f32 := float32_values) (1 / 2))
                 membrane_volume).
  assert (Hin : volume_get mask 0 0 0 = Some 1%Z).
  { unfold mask. rewrite volume_get_map. cbn.
    unfold threshold_mask, float32, float32_values.
    destruct (Rge_dec 1 (1 / 2)); [reflexivity|lra]. }
  assert (Hout : volume_get mask 1 0 0 = Some 0%Z).
  { unfold mask. rewrite volume_get_map. cbn.
    unfold threshold_mask, float32, float32_values.
    destruct (Rge_dec 0 (1 / 2)); [lra|reflexivity]. }
  split; [exact membrane_volume_range|]. split; [reflexivity|]. split; [lra|].
  split; [exact Hin|]. split; [|lra].
  rewrite (signed_dt_combine (f32 := float32_values) euclidean_dt membrane_volume
             (1 / 2) (1 / 2) 0 0 0 1) by reflexivity.
  fold mask.
  rewrite (euclidean_dt_target mask true (1 / 2, 1, 1) 0 0 0 1%Z Hin) by reflexivity.
  pose proof (euclidean_dt_sq_lower mask false (1 / 2) 0 0 0 1%Z Hin eq_refl)
    as Hlower.
  pose proof (euclidean_dt_le mask false (1 / 2, 1, 1) 0 0 0 1 0 0 0%Z Hout eq_refl)
    as Hupper.
  assert (Hsq : sq_dist (1 / 2, 1, 1) (0%nat, 0%nat, 0%nat) (1%nat, 0%nat, 0%nat)
                = / 4).
  { unfold sq_dist, Rsqr. simpl. lra. }
  rewrite Hsq, sqrt_quarter in Hupper.
  assert (Hd : euclidean_dt mask false (1 / 2, 1, 1) 0 0 0 = / 2).
  { apply Rle_antisym; [exact Hupper|].
    unfold euclidean_dt. rewrite <- sqrt_quarter. apply sqrt_le_1_alt.
    eapply Rle_trans; [|exact Hlower].
    apply Rmin_glb; unfold Rsqr; lra. }
  rewrite Hd. f_equal. unfold adjust. destruct (Rlt_dec 0 (/ 2)); lra.
Qed.

(** * The seed extractor and the height map *)

Section SmoothingClaims.
Context {marker : Type}.
Variable gaussianSmoothing : volume R -> sigma -> nat -> nat -> nat -> R.
Variable localMaxima : slice R -> slice marker.
Variable labelMultiArrayWithBackground : slice marker -> slice Z.
Variable group_seeds_by_distance : slice marker -> slice R -> slice Z.

(** C3, as the code has it.  The seeds do not depend on [sigma_seeds]: the
    only scales the smoothing is ever given are [(1 / anisotropy, 1, 1)],
    so the result is the same for any two values of [sigma_seeds], and the
    same when the smoothing is replaced by one fixed to those scales. *)
Theorem seeds_ignore_sigma_seeds (distance_to_membrane : volume R)
    (anisotropy sigma_seeds sigma_seeds' : R) (group_seeds : bool) :
  anisotropic_seeds gaussianSmoothing localMaxima labelMultiArrayWithBackground
    group_seeds_by_distance distance_to_membrane anisotropy sigma_seeds group_seeds
  = anisotropic_seeds gaussianSmoothing localMaxima labelMultiArrayWithBackground
      group_seeds_by_distance distance_to_membrane anisotropy sigma_seeds'
      group_seeds
  /\ anisotropic_seeds gaussianSmoothing localMaxima labelMultiArrayWithBackground
       group_seeds_by_distance distance_to_membrane anisotropy sigma_seeds
       group_seeds
     = anisotropic_seeds
         (fun a _ => gaussianSmoothing a (SigmaPerAxis (1 / anisotropy) 1 1))
         localMaxima labelMultiArrayWithBackground group_seeds_by_distance
         distance_to_membrane anisotropy sigma_seeds group_seeds.
Proof.
  split; [reflexivity|].
  unfold anisotropic_seeds, float_div.
  destruct (Req_dec_T anisotropy 0); reflexivity.
Qed.

(** C4, as the code has it.  The height map is the probability map when
    [grow_on_pmap] is set and the negated signed distance field otherwise;
    a non-zero [sigma_weights] smooths it with the scale
    [1 / sigma_weights], the inverse of the given scale. *)
Theorem height_map_scale (pmap distance_to_membrane : volume R)
    (sigma_weights : R) (grow_on_pmap : bool) :
  let hmap := if grow_on_pmap then pmap
              else volume_map Ropp distance_to_membrane in
  height_map gaussianSmoothing pmap distance_to_membrane sigma_weights grow_on_pmap
  = Ok (if Req_dec_T sigma_weights 0 then hmap
        else tabulate_like
               (gaussianSmoothing hmap (SigmaScalar (1 / sigma_weights))) hmap).
Proof.
  intros hmap. unfold height_map, float_div.
  assert (Hneg : volume_map (fun d => d * -1) distance_to_membrane
                 = volume_map Ropp distance_to_membrane).
  { unfold volume_map, slice_map. apply map_ext. intros s. apply map_ext.
    intros row. apply map_ext. intros d. ring. }
  rewrite Hneg. fold hmap.
  destruct (Req_dec_T sigma_weights 0); reflexivity.
Qed.
End SmoothingClaims.

(** * The entry point: shape and determinism *)

Local Open Scope Z_scope.

Section EntryClaims.
Context {f32 : Float32Cast} {marker : Type}.
Variable distanceTransform :
  volume Z -> bool -> R * R * R -> nat -> nat -> nat -> R.
Variable gaussianSmoothing : volume R -> sigma -> nat -> nat -> nat -> R.
Variable localMaxima : slice R -> slice marker.
Variable labelMultiArrayWithBackground : slice marker -> slice Z.
Variable group_seeds_by_distance : slice marker -> slice R -> slice Z.
Variable iterative_inplace_watershed : slice R -> slice Z -> Z -> slice Z * Z.

(** C7.  Whatever the kernels and the other arguments, the entry point
    raises the assertion error exactly when the array does not have three
    axes or its first extent is not strictly smaller than both others. *)
Theorem shape_assertion (pmap : ndarray R)
    (threshold anisotropy sigma_seeds sigma_weights : R) (min_segment_size : Z)
    (preserve_membrane_pmaps grow_on_pmap group_seeds : bool) :
  ws_anisotropic_distance_transform distanceTransform gaussianSmoothing
    localMaxima labelMultiArrayWithBackground group_seeds_by_distance
    iterative_inplace_watershed
    pmap threshold anisotropy sigma_seeds sigma_weights min_segment_size
    preserve_membrane_pmaps grow_on_pmap group_seeds = Raise AssertionError
  <-> (ndim pmap <> 3%nat
       \/ exists s0 s1 s2, shape pmap = [s0; s1; s2]
                          /\ ~ ((s0 < s1)%nat /\ (s0 < s2)%nat)).
Proof.
  split.
  - intros Hraise.
    destruct (decide (ndim pmap = 3%nat)) as [Hn|Hn]; [|by left]. right.
    unfold ndim in Hn.
    destruct (shape pmap) as [|s0 [|s1 [|s2 [|s3 sh]]]] eqn:Hshape; try discriminate.
    exists s0, s1, s2. split; [reflexivity|]. intros [H1 H2].
    eapply (valid_shape_no_assertion distanceTransform gaussianSmoothing
              localMaxima labelMultiArrayWithBackground group_seeds_by_distance
              iterative_inplace_watershed pmap); [|exact Hraise].
    split; [exact Hshape|]. split; [exact H1|exact H2].
  - intros Hbad. apply invalid_shape_assertion.
    intros (s0 & s1 & s2 & Hshape & H1 & H2).
    destruct Hbad as [Hn|(t0 & t1 & t2 & Ht & Hnot)].
    + apply Hn. unfold ndim. by rewrite Hshape.
    + rewrite Hshape in Ht. injection Ht as <- <- <-. apply Hnot. by split.
Qed.
End EntryClaims.

(** C9.  Two runs on the same input and configuration return the same
    labels and the same count, when the kernels of the two runs agree on
    every argument. *)
Theorem pipeline_deterministic {f32 : Float32Cast} {marker : Type}
    (dt1 dt2 : volume Z -> bool -> R * R * R -> nat -> nat -> nat -> R)
    (gs1 gs2 : volume R -> sigma -> nat -> nat -> nat -> R)
    (lm1 lm2 : slice R -> slice marker)
    (lab1 lab2 : slice marker -> slice Z)
    (grp1 grp2 : slice marker -> slice R -> slice Z)
    (ws1 ws2 : slice R -> slice Z -> Z -> slice Z * Z) :
  (forall m b p z y x, dt1 m b p z y x = dt2 m b p z y x) ->
  (forall v s z y x, gs1 v s z y x = gs2 v s z y x) ->
  (forall s, lm1 s = lm2 s) ->
  (forall s, lab1 s = lab2 s) ->
  (forall s d, grp1 s d = grp2 s d) ->
  (forall h s m, ws1 h s m = ws2 h s m) ->
  forall (pmap : ndarray R) (threshold anisotropy sigma_seeds sigma_weights : R)
         (min_segment_size : Z)
         (preserve_membrane_pmaps grow_on_pmap group_seeds : bool),
    ws_anisotropic_distance_transform dt1 gs1 lm1 lab1 grp1 ws1
      pmap threshold anisotropy sigma_seeds sigma_weights min_segment_size
      preserve_membrane_pmaps grow_on_pmap group_seeds
    = ws_anisotropic_distance_transform dt2 gs2 lm2 lab2 grp2 ws2
        pmap threshold anisotropy sigma_seeds sigma_weights min_segment_size
        preserve_membrane_pmaps grow_on_pmap group_seeds.
Proof.
  intros Hdt Hgs Hlm Hlab Hgrp Hws pmap threshold anisotropy sigma_seeds
    sigma_weights min_segment_size preserve grow group.
  unfold ws_anisotropic_distance_transform.
  destruct (assert _) as [[]|e]; [|reflexivity]. cbn.
  destruct (getitem (shape pmap) 0) as [s0|e]; [|reflexivity]. cbn.
  destruct (getitem (shape pmap) 1) as [s1|e]; [|reflexivity]. cbn.
  destruct (getitem (shape pmap) 2) as [s2|e]; [|reflexivity]. cbn.
  destruct (assert _) as [[]|e]; [|reflexivity]. cbn.
  rewrite (signed_anisotropic_dt_ext dt1 dt2) by exact Hdt.
  rewrite (anisotropic_seeds_ext gs1 gs2 lm1 lm2 lab1 lab2 grp1 grp2)
    by assumption.
  destruct (anisotropic_seeds _ _ _ _ _ _ _ _) as [seeds|e]; [|reflexivity]. cbn.
  rewrite (height_map_ext gs1 gs2) by exact Hgs.
  destruct (height_map _ _ _ _ _) as [hmap|e]; [|reflexivity]. cbn.
  by apply stitch_ext.
Qed.

(** The second run smooths with a kernel written differently. *)
Lemma pipeline_deterministic_witness :
  run_with two_segments membrane_over_tissue (1 / 2) 1 1 0 0 true true false
  = ws_anisotropic_distance_transform (f32 := float32_values) unit_distance
      (fun a _ z y x => default 0%R (volume_get a z y x))
      all_maxima one_component one_group two_segments
      membrane_over_tissue (1 / 2) 1 1 0 0 true true false.
Proof.
  apply (pipeline_deterministic (f32 := float32_values)
           unit_distance unit_distance no_smoothing
           (fun a _ z y x => default 0%R (volume_get a z y x))
           all_maxima all_maxima one_component one_component one_group one_group
           two_segments two_segments); reflexivity.
Defined.

(** * Further properties of the seed extractor *)

Local Open Scope Z_scope.

Section SeedSlices.
Context {marker : Type}.
Variable gaussianSmoothing : volume R -> sigma -> nat -> nat -> nat -> R.
Variable localMaxima : slice R -> slice marker.
Variable labelMultiArrayWithBackground : slice marker -> slice Z.
Variable group_seeds_by_distance : slice marker -> slice R -> slice Z.

(** After the first [n] iterations of the loop of lines 51-59 the slices
    below [n] hold their seeds and the others are untouched. *)
Lemma seeds_loop_slices seed_map dtm group_seeds n seeds :
  (n <= length seed_map)%nat -> (n <= length dtm)%nat -> (n <= length seeds)%nat ->
  exists seeds',
    for_loop (seeds_body localMaxima labelMultiArrayWithBackground
                group_seeds_by_distance seed_map dtm group_seeds) (seq 0 n) seeds
      = Ok seeds'
    /\ length seeds' = length seeds
    /\ (forall z sm d, (z < n)%nat -> seed_map !! z = Some sm -> dtm !! z = Some d ->
          seeds' !! z
          = Some (if group_seeds then group_seeds_by_distance (localMaxima sm) d
                  else labelMultiArrayWithBackground (localMaxima sm)))
    /\ (forall z, (n <= z)%nat -> seeds' !! z = seeds !! z).
Proof.
  induction n as [|n IH]; intros Hm Hd Hs.
  - exists seeds. split; [reflexivity|]. split; [reflexivity|].
    split; [intros; lia|reflexivity].
  - destruct IH as (mid & Hloop & Hlen & Hlow & Hhigh); [lia..|].
    destruct (lookup_lt_is_Some_2 seed_map n) as [sm Hsm]; [lia|].
    destruct (lookup_lt_is_Some_2 dtm n) as [d Hdn]; [lia|].
    exists (<[n := if group_seeds then group_seeds_by_distance (localMaxima sm) d
                   else labelMultiArrayWithBackground (localMaxima sm)]> mid).
    rewrite seq_S, for_loop_app, Hloop. cbn.
    split; [|split; [|split]].
    + unfold seeds_body, getitem. rewrite Hsm. cbn.
      destruct group_seeds; cbn; [rewrite Hdn|]; reflexivity.
    + by rewrite length_insert.
    + intros z sm' d' Hz Hsm' Hd'.
      destruct (decide (z = n)) as [->|Hne].
      * rewrite list_lookup_insert_eq by lia.
        rewrite Hsm in Hsm'. rewrite Hdn in Hd'.
        injection Hsm' as <-. injection Hd' as <-. reflexivity.
      * rewrite list_lookup_insert_ne by done. apply Hlow; [lia|done..].
    + intros z Hz. rewrite list_lookup_insert_ne by lia. apply Hhigh. lia.
Qed.

(** X1.  The seed extractor raises exactly when the anisotropy is zero,
    and then it is the division of line 49 that raises: the loop over the
    slices never indexes out of range. *)
Theorem anisotropic_seeds_raises (distance_to_membrane : volume R)
    (anisotropy sigma_seeds : R) (group_seeds : bool) (e : exn) :
  anisotropic_seeds gaussianSmoothing localMaxima labelMultiArrayWithBackground
    group_seeds_by_distance distance_to_membrane anisotropy sigma_seeds group_seeds
  = Raise e
  <-> anisotropy = 0%R /\ e = ZeroDivisionError.
Proof.
  split.
  - intros Hraise. destruct (Req_dec_T anisotropy 0) as [->|Ha].
    + rewrite anisotropic_seeds_zero in Hraise. by inversion Hraise.
    + destruct (anisotropic_seeds_ok gaussianSmoothing localMaxima
                  labelMultiArrayWithBackground group_seeds_by_distance
                  distance_to_membrane anisotropy sigma_seeds group_seeds Ha)
        as (seeds & Hok & _).
      congruence.
  - intros [-> ->]. apply anisotropic_seeds_zero.
Qed.

(** X2.  For a non-zero anisotropy the seed extractor returns an array
    with as many slices as the distance field, and slice [z] holds the
    seeds found in slice [z] of the field smoothed with the scales
    [(1 / anisotropy, 1, 1)]: none of the zeros the array starts from is
    left in a slice. *)
Theorem anisotropic_seeds_slices (distance_to_membrane : volume R)
    (anisotropy sigma_seeds : R) (group_seeds : bool) :
  anisotropy <> 0%R ->
  let seed_map :=
    tabulate_like
      (gaussianSmoothing distance_to_membrane (SigmaPerAxis (1 / anisotropy) 1 1))
      distance_to_membrane in
  exists seeds,
    anisotropic_seeds gaussianSmoothing localMaxima labelMultiArrayWithBackground
      group_seeds_by_distance distance_to_membrane anisotropy sigma_seeds group_seeds
    = Ok seeds
    /\ length seeds = length distance_to_membrane
    /\ forall z seed_map_z distance_z,
         seed_map !! z = Some seed_map_z ->
         distance_to_membrane !! z = Some distance_z ->
         seeds !! z
         = Some (if group_seeds
                 then group_seeds_by_distance (localMaxima seed_map_z) distance_z
                 else labelMultiArrayWithBackground (localMaxima seed_map_z)).
Proof.
  intros Ha seed_map. unfold anisotropic_seeds, float_div.
  destruct (Req_dec_T anisotropy 0) as [|_]; [done|]. cbn. fold seed_map.
  destruct (seeds_loop_slices seed_map distance_to_membrane group_seeds
              (length distance_to_membrane)
              (volume_map (fun _ => 0) distance_to_membrane))
    as (seeds & Hloop & Hlen & Hlow & _).
  { unfold seed_map. by rewrite length_tabulate_like. }
  { done. }
  { by rewrite length_volume_map. }
  exists seeds. split; [exact Hloop|]. split.
  - by rewrite Hlen, length_volume_map.
  - intros z sm d Hsm Hd. apply Hlow; [|done..]. by eapply lookup_lt_Some.
Qed.

(** X3.  Only one of the two labelling kernels is used: without grouping
    the seeds do not depend on [group_seeds_by_distance], with grouping
    they do not depend on [labelMultiArrayWithBackground]. *)
Theorem anisotropic_seeds_kernel_choice
    (labelling' : slice marker -> slice Z)
    (grouping' : slice marker -> slice R -> slice Z)
    (distance_to_membrane : volume R) (anisotropy sigma_seeds : R) :
  anisotropic_seeds gaussianSmoothing localMaxima labelMultiArrayWithBackground
    group_seeds_by_distance distance_to_membrane anisotropy sigma_seeds false
  = anisotropic_seeds gaussianSmoothing localMaxima labelMultiArrayWithBackground
      grouping' distance_to_membrane anisotropy sigma_seeds false
  /\ anisotropic_seeds gaussianSmoothing localMaxima labelMultiArrayWithBackground
       group_seeds_by_distance distance_to_membrane anisotropy sigma_seeds true
     = anisotropic_seeds gaussianSmoothing localMaxima labelling'
         group_seeds_by_distance distance_to_membrane anisotropy sigma_seeds true.
Proof.
  unfold anisotropic_seeds.
  destruct (float_div 1 anisotropy) as [inv|e]; [|done]. cbn.
  split; apply for_loop_ext; intros seeds z; unfold seeds_body;
    (destruct (getitem _ z) as [sm|e]; [|reflexivity]); reflexivity.
Qed.
End SeedSlices.

(** The seeds of the example volume, without grouping. *)
Lemma anisotropic_seeds_slices_witness :
  exists seeds,
    anisotropic_seeds no_smoothing all_maxima one_component one_group
      membrane_volume 2 1 false = Ok seeds
    /\ length seeds = length membrane_volume
    /\ forall z seed_map_z distance_z,
         tabulate_like (no_smoothing membrane_volume (SigmaPerAxis (1 / 2) 1 1))
           membrane_volume !! z = Some seed_map_z ->
         membrane_volume !! z = Some distance_z ->
         seeds !! z = Some (one_component (all_maxima seed_map_z)).
Proof.
  apply (anisotropic_seeds_slices no_smoothing all_maxima one_component one_group
           membrane_volume 2 1 false).
  lra.
Defined.

(** * Further properties of the distance field builder *)

Local Open Scope R_scope.

Lemma Forall2_lookup_eq {A} (P : A -> A -> Prop) (l k : list A) :
  Forall2 P l k ->
  (forall i x y, l !! i = Some x -> k !! i = Some y -> P x y -> x = y) ->
  l = k.
Proof.
  induction 1 as [|x y l k Hxy _ IH]; intros Heq; [reflexivity|].
  f_equal.
  - by apply (Heq 0%nat).
  - apply IH. intros i. apply (Heq (S i)).
Qed.

(** Two arrays of one shape with the same voxels are equal. *)
Lemma volume_ext {A} (a b : volume A) :
  same_shape a b ->
  (forall z y x v, volume_get b z y x = Some v -> volume_get a z y x = Some v) ->
  a = b.
Proof.
  unfold same_shape. intros Hshape Hget.
  eapply Forall2_lookup_eq; [exact Hshape|]. intros z sa sb Hsa Hsb Hs.
  eapply Forall2_lookup_eq; [exact Hs|]. intros y ra rb Hra Hrb Hr.
  eapply Forall2_lookup_eq; [exact Hr|]. intros x va vb Hva Hvb _.
  specialize (Hget z y x vb). unfold volume_get, slice_get in Hget.
  rewrite Hsa, Hra, Hsb, Hrb in Hget. specialize (Hget Hvb). congruence.
Qed.

Lemma Forall2_zip_with3 {A B C D} (P : A -> B -> Prop) (Q : A -> C -> Prop)
    (T : D -> A -> Prop) (f : A -> B -> C -> D) a b c :
  Forall2 P a b -> Forall2 Q a c ->
  (forall x y z, P x y -> Q x z -> T (f x y z) x) ->
  Forall2 T (zip_with3 f a b c) a.
Proof.
  intros Hab. revert c. induction Hab as [|x y a b Hxy _ IH]; intros c Hac Hf.
  - inversion Hac; subst. constructor.
  - inversion Hac as [|? z ? c' Hxz Hac']; subst. simpl.
    constructor; [by apply Hf|by apply IH].
Qed.

Lemma Forall2_zip_with {A B C} (P : A -> B -> Prop) (T : C -> A -> Prop)
    (f : A -> B -> C) a b :
  Forall2 P a b -> (forall x y, P x y -> T (f x y) x) ->
  Forall2 T (zip_with f a b) a.
Proof.
  intros Hab Hf. induction Hab as [|x y a b Hxy _ IH]; simpl; constructor; auto.
Qed.

Lemma same_shape_trans {A B C} (a : volume A) (b : volume B) (c : volume C) :
  same_shape a b -> same_shape b c -> same_shape a c.
Proof.
  unfold same_shape. intros Hab Hbc.
  eapply Forall2_trans; [|exact Hab|exact Hbc]. intros sa sb sc Hsa Hsb.
  eapply Forall2_trans; [|exact Hsa|exact Hsb]. intros ra rb rc Hra Hrb.
  eapply Forall2_trans; [|exact Hra|exact Hrb]. done.
Qed.

Lemma same_shape_zip_with3 {A B C D} (f : A -> B -> C -> D)
    (m : volume A) (a : volume B) (b : volume C) :
  same_shape m a -> same_shape m b ->
  same_shape (zip_with3 (zip_with3 (zip_with3 f)) m a b) m.
Proof.
  unfold same_shape. intros Ha Hb.
  eapply Forall2_zip_with3; [exact Ha|exact Hb|]. intros sm sa sb Hsa Hsb.
  eapply Forall2_zip_with3; [exact Hsa|exact Hsb|]. intros rm ra rb Hra Hrb.
  eapply Forall2_zip_with3; [exact Hra|exact Hrb|]. done.
Qed.

Lemma same_shape_zip {A B C} (f : A -> B -> C) (a : volume A) (b : volume B) :
  same_shape a b -> same_shape (volume_zip f a b) a.
Proof.
  unfold same_shape, volume_zip. intros Hab.
  eapply Forall2_zip_with; [exact Hab|]. intros sa sb Hs.
  eapply Forall2_zip_with; [exact Hs|]. intros ra rb Hr.
  eapply Forall2_zip_with; [exact Hr|]. done.
Qed.

Section BuilderShape.
Context {f32 : Float32Cast}.
Variable distanceTransform :
  volume Z -> bool -> R * R * R -> nat -> nat -> nat -> R.

Lemma signed_anisotropic_dt_shape_aux pmap threshold anisotropy preserve :
  same_shape
    (signed_anisotropic_dt distanceTransform pmap threshold anisotropy preserve)
    pmap.
Proof.
  unfold signed_anisotropic_dt. destruct preserve.
  - rewrite mask_assign_spec.
    2:{ apply same_shape_map_l, same_shape_tabulate_r, same_shape_refl. }
    2:{ apply same_shape_map_l, same_shape_map_l, same_shape_refl. }
    eapply same_shape_trans.
    + apply same_shape_zip_with3.
      * apply same_shape_map_l, same_shape_tabulate_r, same_shape_refl.
      * apply same_shape_map_l, same_shape_map_l, same_shape_refl.
    + apply same_shape_map_l, same_shape_map_l, same_shape_refl.
  - rewrite mask_assign_spec.
    2:{ apply same_shape_map_l, same_shape_refl. }
    2:{ apply same_shape_map_l, same_shape_refl. }
    eapply same_shape_trans.
    + apply same_shape_zip. eapply same_shape_trans.
      2:{ apply same_shape_sym, same_shape_zip_with3;
            apply same_shape_map_l, same_shape_refl. }
      apply same_shape_map_r, same_shape_tabulate_l, same_shape_tabulate_r,
        same_shape_refl.
    + apply same_shape_tabulate_l, same_shape_map_l, same_shape_refl.
Qed.

(** X4.  The signed distance field has the shape of the probability map,
    along every axis and for both settings of [preserve_membrane_pmaps]. *)
Theorem signed_anisotropic_dt_shape (pmap : volume R) (threshold anisotropy : R)
    (preserve_membrane_pmaps : bool) :
  same_shape
    (signed_anisotropic_dt distanceTransform pmap threshold anisotropy
       preserve_membrane_pmaps) pmap.
Proof. apply signed_anisotropic_dt_shape_aux. Qed.

(** X5.  When every voxel reaches the threshold, in the [float32]
    comparison of line 13, and the membrane probabilities are preserved,
    nothing of the distance transform is left: the signed field is the
    negated probability map. *)
Theorem signed_dt_all_membrane (pmap : volume R) (threshold anisotropy : R) :
  (forall z y x p, volume_get pmap z y x = Some p -> p >= float32 threshold) ->
  signed_anisotropic_dt distanceTransform pmap threshold anisotropy true
  = volume_map Ropp pmap.
Proof.
  intros Hall. apply volume_ext.
  - eapply same_shape_trans; [apply signed_anisotropic_dt_shape_aux|].
    apply same_shape_map_r, same_shape_refl.
  - intros z y x v. rewrite volume_get_map.
    destruct (volume_get pmap z y x) as [p|] eqn:Hp; [|done].
    cbn [fmap option_fmap option_map]. intros [= <-].
    rewrite (signed_dt_preserve distanceTransform pmap threshold anisotropy
               z y x p Hp).
    destruct (Rge_dec p (float32 threshold)) as [_|Hn]; [reflexivity|].
    destruct Hn. by eapply Hall.
Qed.
End BuilderShape.

(** With threshold 0 the whole example volume is membrane. *)
Lemma signed_dt_all_membrane_witness :
  signed_anisotropic_dt (f32 := float32_values) unit_distance membrane_volume
    0 1 true
  = volume_map Ropp membrane_volume.
Proof.
  apply (signed_dt_all_membrane (f32 := float32_values) unit_distance
           membrane_volume 0 1).
  intros z y x p Hp. destruct (membrane_volume_range z y x p Hp).
  unfold float32, float32_values. lra.
Defined.

(** X6.  With the Euclidean distance transform, an anisotropy of at least 1
    and the membrane probabilities not preserved, a voxel of the mask at
    distance 1 from a voxel outside the mask (a neighbour within the slice,
    or across slices when the anisotropy is 1) is at exactly 0 in the signed
    field: the subtraction of line 35 cancels its distance to the
    non-membrane.  The mask is the one of line 13: a voxel is in it when it
    reaches the threshold in the [float32] comparison. *)
Theorem signed_dt_boundary_zero {f32 : Float32Cast} (pmap : volume R)
    (threshold anisotropy : R) (z y x z' y' x' : nat) (p q : R) :
  1 <= anisotropy ->
  volume_get pmap z y x = Some p -> p >= float32 threshold ->
  volume_get pmap z' y' x' = Some q -> q < float32 threshold ->
  sq_dist (anisotropy, 1, 1) (z, y, x) (z', y', x') = 1 ->
  volume_get (volume_map (threshold_mask threshold) pmap) z y x = Some 1%Z
  /\ volume_get (volume_map (threshold_mask threshold) pmap) z' y' x' = Some 0%Z
  /\ volume_get (signed_anisotropic_dt euclidean_dt pmap threshold anisotropy false)
       z y x = Some 0.
Proof.
  intros Ha Hp Hge Hq Hlt Hdist.
  rewrite (signed_dt_combine euclidean_dt pmap threshold anisotropy z y x p Hp).
  set (mask := volume_map (threshold_mask threshold) pmap).
  assert (Hin : volume_get mask z y x = Some 1%Z).
  { unfold mask. rewrite volume_get_map, Hp. cbn [fmap option_fmap option_map].
    unfold threshold_mask.
    destruct (Rge_dec p (float32 threshold)); [reflexivity|lra]. }
  assert (Hout : volume_get mask z' y' x' = Some 0%Z).
  { unfold mask. rewrite volume_get_map, Hq. cbn [fmap option_fmap option_map].
    unfold threshold_mask.
    destruct (Rge_dec q (float32 threshold)); [lra|reflexivity]. }
  split; [exact Hin|]. split; [exact Hout|].
  rewrite (euclidean_dt_target mask true (anisotropy, 1, 1) z y x 1%Z Hin)
    by reflexivity.
  pose proof (euclidean_dt_ge_1 mask false anisotropy z y x 1%Z Hin eq_refl Ha)
    as Hlower.
  pose proof (euclidean_dt_le mask false (anisotropy, 1, 1) z y x z' y' x' 0%Z
                Hout eq_refl) as Hupper.
  rewrite Hdist, sqrt_1 in Hupper.
  f_equal. unfold adjust. destruct (Rlt_dec 0 _); lra.
Qed.

Lemma signed_dt_boundary_zero_witness :
  volume_get (volume_map (threshold_mask (f32 := float32_values) (1 / 2))
                membrane_edge) 0 0 0 = Some 1%Z
  /\ volume_get (volume_map (threshold_mask (f32 := float32_values) (1 / 2))
                   membrane_edge) 0 0 1 = Some 0%Z
  /\ volume_get (signed_anisotropic_dt (f32 := float32_values) euclidean_dt
                   membrane_edge (1 / 2) 2 false) 0 0 0 = Some 0.
Proof.
  apply (signed_dt_boundary_zero (f32 := float32_values) membrane_edge (1 / 2) 2
           0 0 0 0 0 1 1 0).
  - lra.
  - reflexivity.
  - unfold float32, float32_values. lra.
  - reflexivity.
  - unfold float32, float32_values. lra.
  - unfold sq_dist, Rsqr. simpl. lra.
Defined.

(** * Further properties of the entry point *)

Local Open Scope Z_scope.

Section EntryOutcome.
Context {f32 : Float32Cast} {marker : Type}.
Variable distanceTransform :
  volume Z -> bool -> R * R * R -> nat -> nat -> nat -> R.
Variable gaussianSmoothing : volume R -> sigma -> nat -> nat -> nat -> R.
Variable localMaxima : slice R -> slice marker.
Variable labelMultiArrayWithBackground : slice marker -> slice Z.
Variable group_seeds_by_distance : slice marker -> slice R -> slice Z.
Variable iterative_inplace_watershed : slice R -> slice Z -> Z -> slice Z * Z.

(** X7.  The three outcomes of the entry point.  It returns exactly when
    the shape is valid and the anisotropy is not zero, and the labels then
    have as many slices as the first extent of the input; it raises the
    assertion error on an invalid shape and the division error on a valid
    shape with anisotropy zero; no index is ever out of range. *)
Theorem entry_point_outcome (pmap : ndarray R)
    (threshold anisotropy sigma_seeds sigma_weights : R) (min_segment_size : Z)
    (preserve_membrane_pmaps grow_on_pmap group_seeds : bool) :
  match
    ws_anisotropic_distance_transform distanceTransform gaussianSmoothing
      localMaxima labelMultiArrayWithBackground group_seeds_by_distance
      iterative_inplace_watershed
      pmap threshold anisotropy sigma_seeds sigma_weights min_segment_size
      preserve_membrane_pmaps grow_on_pmap group_seeds
  with
  | Ok (out, count) =>
      (exists s1 s2, valid_shape pmap (length out) s1 s2) /\ anisotropy <> 0%R
  | Raise e =>
      (e = AssertionError /\ ~ (exists s0 s1 s2, valid_shape pmap s0 s1 s2))
      \/ (e = ZeroDivisionError /\ anisotropy = 0%R
          /\ exists s0 s1 s2, valid_shape pmap s0 s1 s2)
  end.
Proof.
  destruct (shape_assertions distanceTransform gaussianSmoothing localMaxima
              labelMultiArrayWithBackground group_seeds_by_distance pmap)
    as [(s0 & s1 & s2 & Hv)|Hbad].
  - destruct (Req_dec_T anisotropy 0) as [->|Ha].
    + rewrite pipeline_split.
      rewrite (watershed_inputs_zero distanceTransform gaussianSmoothing
                 localMaxima labelMultiArrayWithBackground
                 group_seeds_by_distance pmap threshold sigma_seeds sigma_weights
                 preserve_membrane_pmaps grow_on_pmap group_seeds s0 s1 s2 Hv).
      right. eauto 10.
    + destruct (watershed_inputs_ok distanceTransform gaussianSmoothing
                  localMaxima labelMultiArrayWithBackground
                  group_seeds_by_distance pmap threshold anisotropy sigma_seeds
                  sigma_weights preserve_membrane_pmaps grow_on_pmap group_seeds
                  s0 s1 s2 Hv Ha) as (hmap & seeds & _ & _ & Hin).
      destruct (pipeline_unfold distanceTransform gaussianSmoothing localMaxima
                  labelMultiArrayWithBackground group_seeds_by_distance
                  iterative_inplace_watershed pmap threshold anisotropy
                  sigma_seeds sigma_weights min_segment_size
                  preserve_membrane_pmaps grow_on_pmap group_seeds s0 hmap seeds
                  Hin) as [-> Hlen].
      split; [|exact Ha]. exists s1, s2. by rewrite stitched_length, Hlen.
  - rewrite pipeline_split, Hbad. left. split; [reflexivity|].
    intros (s0 & s1 & s2 & Hv).
    specialize (Hbad threshold anisotropy sigma_seeds sigma_weights
                  preserve_membrane_pmaps grow_on_pmap group_seeds).
    destruct (Req_dec_T anisotropy 0) as [Hz|Ha].
    + subst anisotropy.
      rewrite (watershed_inputs_zero distanceTransform gaussianSmoothing
                 localMaxima labelMultiArrayWithBackground
                 group_seeds_by_distance pmap threshold sigma_seeds sigma_weights
                 preserve_membrane_pmaps grow_on_pmap group_seeds s0 s1 s2 Hv)
        in Hbad.
      discriminate.
    + destruct (watershed_inputs_ok distanceTransform gaussianSmoothing
                  localMaxima labelMultiArrayWithBackground
                  group_seeds_by_distance pmap threshold anisotropy sigma_seeds
                  sigma_weights preserve_membrane_pmaps grow_on_pmap group_seeds
                  s0 s1 s2 Hv Ha) as (hmap & seeds & _ & _ & Hin).
      rewrite Hin in Hbad. discriminate.
Qed.

(** X8.  An input without slices (first extent 0) gives no labels and a
    count of 0: the stitching loop does not run and the watershed is never
    called. *)
Theorem no_slices_no_labels (pmap : ndarray R)
    (threshold anisotropy sigma_seeds sigma_weights : R) (min_segment_size : Z)
    (preserve_membrane_pmaps grow_on_pmap group_seeds : bool) (s1 s2 : nat) :
  valid_shape pmap 0 s1 s2 -> anisotropy <> 0%R ->
  ws_anisotropic_distance_transform distanceTransform gaussianSmoothing
    localMaxima labelMultiArrayWithBackground group_seeds_by_distance
    iterative_inplace_watershed
    pmap threshold anisotropy sigma_seeds sigma_weights min_segment_size
    preserve_membrane_pmaps grow_on_pmap group_seeds = Ok ([], 0).
Proof.
  intros Hv Ha.
  destruct (watershed_inputs_ok distanceTransform gaussianSmoothing
              localMaxima labelMultiArrayWithBackground
              group_seeds_by_distance pmap threshold anisotropy sigma_seeds
              sigma_weights preserve_membrane_pmaps grow_on_pmap group_seeds
              0 s1 s2 Hv Ha) as (hmap & seeds & _ & _ & Hin).
  destruct (pipeline_unfold distanceTransform gaussianSmoothing localMaxima
              labelMultiArrayWithBackground group_seeds_by_distance
              iterative_inplace_watershed pmap threshold anisotropy
              sigma_seeds sigma_weights min_segment_size
              preserve_membrane_pmaps grow_on_pmap group_seeds 0 hmap seeds
              Hin) as [-> Hlen].
  apply nil_length_inv in Hlen. rewrite Hlen. reflexivity.
Qed.
End EntryOutcome.

Lemma no_slices_shape : valid_shape no_slices 0 1 1.
Proof. repeat split; simpl; lia. Qed.

Lemma no_slices_no_labels_witness :
  run_with two_segments no_slices (1 / 2) 1 1 0 0 true true false = Ok ([], 0).
Proof.
  apply (no_slices_no_labels (f32 := float32_values) unit_distance no_smoothing all_maxima one_component
           one_group two_segments no_slices (1 / 2) 1 1 0 0 true true false 1 1
           no_slices_shape).
  lra.
Defined.

(** * Further properties of the label stitcher *)

Lemma foldr_add_app (l1 l2 : list Z) :
  foldr Z.add 0 (l1 ++ l2) = foldr Z.add 0 l1 + foldr Z.add 0 l2.
Proof. induction l1 as [|a l1 IH]; simpl; lia. Qed.

Lemma offset_at_app_l (g1 g2 : list (slice Z * Z)) z :
  (z <= length g1)%nat -> offset_at (g1 ++ g2) z = offset_at g1 z.
Proof. intros Hz. unfold offset_at. by rewrite take_app_le. Qed.

Lemma offset_at_app_r (g1 g2 : list (slice Z * Z)) z :
  offset_at (g1 ++ g2) (length g1 + z)
  = offset_at g1 (length g1) + offset_at g2 z.
Proof.
  unfold offset_at. rewrite take_app_add, map_app, foldr_add_app.
  by rewrite firstn_all.
Qed.

Lemma relabel_shift (c o : Z) (grown : slice Z) :
  relabel (c + o) grown = slice_map (iadd32 c) (relabel o grown).
Proof.
  unfold relabel. rewrite slice_map_compose. unfold slice_map.
  apply map_ext. intros row. apply map_ext. intros l.
  unfold iadd32, wrap32, uint32_mod.
  rewrite (Zplus_mod_idemp_l (isub32 1 l + o)). f_equal. lia.
Qed.

Lemma stitched_app (g1 g2 : list (slice Z * Z)) :
  stitched (g1 ++ g2)
  = stitched g1
    ++ map (slice_map (iadd32 (offset_at g1 (length g1)))) (stitched g2).
Proof.
  unfold stitched. rewrite imap_app. f_equal.
  - apply imap_ext. intros z r Hr. rewrite offset_at_app_l; [done|].
    apply lookup_lt_Some in Hr. lia.
  - apply list_eq. intros z.
    change (map ?f ?l) with (fmap (M:=list) f l).
    rewrite list_lookup_fmap, !list_lookup_imap.
    destruct (g2 !! z) as [r|]; [|done]. cbn [fmap option_fmap option_map].
    by rewrite offset_at_app_r, relabel_shift.
Qed.

Section StitcherRanges.
Context {px : Type}.
Variable iterative_inplace_watershed : slice px -> slice Z -> Z -> slice Z * Z.

(** X9.  When the watershed of every slice uses labels between 1 and the
    maximum it returns and the count stays within [2^32], the labels of
    slice [z] lie from the running offset on entry to [z] up to, but not
    including, the offset on exit: the stored labels start at 0, the
    blocks of successive slices do not overlap, not even by one, and every
    label is below the returned count. *)
Theorem stitch_label_ranges (n : nat) (hmap : volume px) (seeds : volume Z)
    (min_segment_size : Z) :
  length hmap = n -> length seeds = n ->
  let g := grow_all iterative_inplace_watershed hmap seeds min_segment_size in
  Forall labels_1_to_max g ->
  offset_at g n <= 2 ^ 32 ->
  exists out,
    stitch iterative_inplace_watershed n hmap seeds min_segment_size
      = Ok (out, offset_at g n)
    /\ forall z s v,
         out !! z = Some s -> In v (slice_values s) ->
         offset_at g z <= v < offset_at g (S z)
         /\ 0 <= v < offset_at g n.
Proof.
  intros Hh Hs g Hg Htot.
  assert (Hlen : length g = n).
  { unfold g, grow_all. rewrite length_zip_with. lia. }
  exists (stitched g). split.
  - rewrite stitch_unfold by lia. fold g.
    rewrite take_ge by (rewrite stitched_length; lia).
    rewrite drop_ge by lia. by rewrite app_nil_r.
  - intros z s v Hz Hv.
    assert (Hnn : Forall (fun r => 0 <= snd r) g).
    { eapply Forall_impl; [exact Hg|]. by intros r [? _]. }
    unfold stitched in Hz.
    apply list_lookup_imap_Some in Hz as ([grown m] & Hgz & ->).
    cbn [fst] in Hv. apply relabel_values in Hv as (l & Hl & ->).
    destruct (proj1 (Forall_lookup _ _) Hg _ _ Hgz) as [Hm Hr].
    cbn [fst snd] in *. specialize (Hr _ Hl).
    pose proof (offset_at_S _ _ _ Hgz) as HS. cbn [snd] in HS.
    pose proof (offset_at_mono g 0 z Hnn ltac:(lia)) as M0.
    rewrite offset_at_0 in M0.
    apply lookup_lt_Some in Hgz as Hzlt.
    pose proof (offset_at_mono g (S z) n Hnn ltac:(lia)) as M1.
    rewrite Z.mod_small by lia. lia.
Qed.

(** X10.  Stitching is compositional: the loop on two volumes laid one
    after the other gives the labels of the first, followed by the labels
    of the second with the count of the first added modulo [2^32], and the
    sum of the two counts. *)
Theorem stitch_app (hmap1 hmap2 : volume px) (seeds1 seeds2 : volume Z)
    (min_segment_size : Z) (out1 out2 : volume Z) (count1 count2 : Z) :
  length hmap1 = length seeds1 -> length hmap2 = length seeds2 ->
  stitch iterative_inplace_watershed (length hmap1) hmap1 seeds1 min_segment_size
    = Ok (out1, count1) ->
  stitch iterative_inplace_watershed (length hmap2) hmap2 seeds2 min_segment_size
    = Ok (out2, count2) ->
  stitch iterative_inplace_watershed (length hmap1 + length hmap2)
    (hmap1 ++ hmap2) (seeds1 ++ seeds2) min_segment_size
  = Ok (out1 ++ map (slice_map (fun l => (l + count1) mod 2 ^ 32)) out2,
        count1 + count2).
Proof.
  intros Hl1 Hl2 H1 H2.
  set (g1 := grow_all iterative_inplace_watershed hmap1 seeds1 min_segment_size).
  set (g2 := grow_all iterative_inplace_watershed hmap2 seeds2 min_segment_size).
  assert (Hg1 : length g1 = length hmap1).
  { unfold g1, grow_all. rewrite length_zip_with. lia. }
  assert (Hg2 : length g2 = length hmap2).
  { unfold g2, grow_all. rewrite length_zip_with. lia. }
  rewrite stitch_unfold in H1 by lia. fold g1 in H1.
  rewrite take_ge, drop_ge, app_nil_r in H1 by (rewrite ?stitched_length; lia).
  rewrite stitch_unfold in H2 by lia. fold g2 in H2.
  rewrite take_ge, drop_ge, app_nil_r in H2 by (rewrite ?stitched_length; lia).
  injection H1 as <- <-. injection H2 as <- <-.
  rewrite stitch_unfold by (rewrite length_app; lia).
  assert (Hg : grow_all iterative_inplace_watershed (hmap1 ++ hmap2)
                 (seeds1 ++ seeds2) min_segment_size = g1 ++ g2).
  { unfold grow_all. by rewrite zip_with_app. }
  rewrite Hg.
  rewrite take_ge by (rewrite stitched_length, length_app; lia).
  rewrite drop_ge by (rewrite length_app; lia).
  rewrite app_nil_r, stitched_app, <- Hg1, <- Hg2, offset_at_app_r.
  reflexivity.
Qed.
End StitcherRanges.

Lemma stitch_label_ranges_witness :
  exists out,
    stitch two_labels 2 two_slices two_seeds 0
      = Ok (out, offset_at (grow_all two_labels two_slices two_seeds 0) 2)
    /\ forall z s v,
         out !! z = Some s -> In v (slice_values s) ->
         offset_at (grow_all two_labels two_slices two_seeds 0) z <= v
           < offset_at (grow_all two_labels two_slices two_seeds 0) (S z)
         /\ 0 <= v < offset_at (grow_all two_labels two_slices two_seeds 0) 2.
Proof.
  apply (stitch_label_ranges two_labels 2 two_slices two_seeds 0).
  - reflexivity.
  - reflexivity.
  - assert (Hr : labels_1_to_max ([[1; 2]], 2)).
    { split; [simpl; lia|]. simpl. intros l Hl. lia. }
    apply Forall_cons_2; [exact Hr|]. apply Forall_cons_2; [exact Hr|].
    apply Forall_nil_2.
  - unfold offset_at. simpl. lia.
Defined.

Lemma stitch_app_witness :
  stitch two_labels (1 + 1) ([[[tt; tt]]] ++ [[[tt; tt]]]) ([[[1; 2]]] ++ [[[0; 1]]]) 0
  = Ok ([[[0; 1]]] ++ map (slice_map (fun l => (l + 2) mod 2 ^ 32)) [[[0; 1]]],
        2 + 2).
Proof.
  apply (stitch_app two_labels [[[tt; tt]]] [[[tt; tt]]] [[[1; 2]]] [[[0; 1]]] 0
           [[[0; 1]]] [[[0; 1]]] 2 2); reflexivity.
Defined.
